(** * src/base/compiler.hh: the attribute normalization header

    The header is a program in the C preprocessor language: conditional
    directives select, per toolchain, one replacement list for each
    annotation macro.  It is embedded in three parts.

    - [Cpp]: the header as a list of directives over preprocessing tokens,
      run against a description of the toolchain ([__has_cpp_attribute],
      [__GNUC__], [__clang__]); the result is the macro table or the message
      of the [#error] that stopped the translation.  Macro invocations are
      expanded on token lists: arguments are split at the commas outside
      parentheses, substituted for the parameters as they are written, and
      the replacement is rescanned.  The header defines no macro in terms
      of itself and uses neither [#] nor [##], so the rules for those are
      left out.
    - [Syntax]: the C++ forms the expansions are meant to have: attribute
      specifiers, with arguments whose brackets match, and a reader of
      statements that takes one statement from the front of a token list.
    - [Sem]: the run-time meaning of the expansions that are expressions or
      statements ([GEM5_LIKELY], [GEM5_DEPRECATED_MACRO],
      [GEM5_FOR_EACH_IN_PACK], ...), built from the C++ operators in their
      replacement lists, as computations over an arbitrary program state.
      The comma operator is the built-in one unless an operand has class
      type, when it is the one overload resolution selects among the
      [operator,] declared where the macro is used, a parameter of the
      model; a loop takes its iteration bound as fuel. *)

From Stdlib Require Import String Ascii List ZArith Bool Lia.
Import ListNotations.

Set Warnings "-register-all".

Local Open Scope string_scope.
Local Open Scope list_scope.
Local Open Scope Z_scope.

(* ================================================================= *)
(** ** Preprocessing tokens *)

Module Tok.

(** A preprocessing token.  [[[] is two [TP "["] tokens, [::] is the single
    punctuator [TP "::"], [!!] is two [TP "!"] tokens.  A string literal
    carries its characters without the surrounding quotes. *)
Inductive token : Type :=
| TId (s : string)
| TNum (n : Z)
| TStr (s : string)
| TP (s : string).

Definition is_punct (p : string) (t : token) : bool :=
  match t with
  | TP q => String.eqb q p
  | _ => false
  end.

Definition tokens := list token.

End Tok.

Import Tok.

(* ================================================================= *)
(** ** The preprocessor and the header *)

Module Cpp.

(** A macro definition: [m_params = None] for an object-like macro,
    [Some ps] for a function-like one with named parameters [ps];
    [m_variadic] when the parameter list ends in [...]. *)
Record macro : Type := Macro {
  m_params : option (list string);
  m_variadic : bool;
  m_body : tokens
}.

Definition object_like (body : tokens) : macro := Macro None false body.
Definition function_like (ps : list string) (body : tokens) : macro :=
  Macro (Some ps) false body.
Definition variadic (ps : list string) (body : tokens) : macro :=
  Macro (Some ps) true body.

(** The macro table: the most recent definition first. *)
Definition table := list (string * macro).

Fixpoint lookup (n : string) (tbl : table) : option macro :=
  match tbl with
  | [] => None
  | (k, m) :: tbl' => if String.eqb k n then Some m else lookup n tbl'
  end.

(** What the header can observe of the toolchain: the value of
    [__has_cpp_attribute(a)] (0 when the attribute is not supported), the
    value of [__GNUC__] when it is predefined, and whether [__clang__] is
    predefined. *)
Record toolchain : Type := Toolchain {
  has_cpp_attribute : string -> Z;
  gnuc : option Z;
  clang : bool
}.

Definition predefined (tc : toolchain) (n : string) : option Z :=
  if String.eqb n "__GNUC__" then gnuc tc
  else if String.eqb n "__clang__" then (if clang tc then Some 1 else None)
  else None.

(** Controlling expressions of [#if] / [#elif]. *)
Inductive pp_expr : Type :=
| HasCppAttribute (a : string)
| Defined (n : string)
| Ident (n : string)
| Const (z : Z)
| Ge (a b : pp_expr)
| LOr (a b : pp_expr)
| LNot (a : pp_expr).

Definition is_defined (tc : toolchain) (tbl : table) (n : string) : bool :=
  match predefined tc n, lookup n tbl with
  | None, None => false
  | _, _ => true
  end.

(** An identifier that is not a macro evaluates to 0 in [#if]. *)
Fixpoint eval_pp (tc : toolchain) (tbl : table) (e : pp_expr) : Z :=
  match e with
  | HasCppAttribute a => has_cpp_attribute tc a
  | Defined n => Z.b2z (is_defined tc tbl n)
  | Ident n => match predefined tc n with Some z => z | None => 0 end
  | Const z => z
  | Ge a b => Z.b2z (eval_pp tc tbl b <=? eval_pp tc tbl a)
  | LOr a b =>
      if negb (eval_pp tc tbl a =? 0) then 1
      else Z.b2z (negb (eval_pp tc tbl b =? 0))
  | LNot a => Z.b2z (eval_pp tc tbl a =? 0)
  end.

Definition holds (tc : toolchain) (tbl : table) (e : pp_expr) : bool :=
  negb (eval_pp tc tbl e =? 0).

(** Directives.  [#if c ... #elif d ... #else ... #endif] is
    [PIf c ... [PIf d ... ...]]. *)
Inductive directive : Type :=
| PInclude (header : string)
| PDefine (name : string) (m : macro)
| PError (msg : string)
| PIf (c : pp_expr) (th el : list directive).

(** The outcome of preprocessing: the macro table, or the message of the
    [#error] that stopped the translation. *)
Inductive result : Type :=
| Ok (tbl : table)
| Failed (msg : string).

Fixpoint run (tc : toolchain) (d : directive) (tbl : table) : result :=
  match d with
  | PInclude _ => Ok tbl
  | PDefine n m => Ok ((n, m) :: tbl)
  | PError msg => Failed msg
  | PIf c th el =>
      let fix go (ds : list directive) (tbl : table) : result :=
        match ds with
        | [] => Ok tbl
        | d' :: ds' =>
            match run tc d' tbl with
            | Ok tbl' => go ds' tbl'
            | Failed msg => Failed msg
            end
        end in
      if holds tc tbl c then go th tbl else go el tbl
  end.

Fixpoint run_all (tc : toolchain) (ds : list directive) (tbl : table) : result :=
  match ds with
  | [] => Ok tbl
  | d :: ds' =>
      match run tc d tbl with
      | Ok tbl' => run_all tc ds' tbl'
      | Failed msg => Failed msg
      end
  end.

(** *** The header, directive by directive *)

Definition lb := TP "[".
Definition rb := TP "]".
Definition lp := TP "(".
Definition rp := TP ")".
Definition lc := TP "{".
Definition rc := TP "}".
Definition comma := TP ",".
Definition semi := TP ";".

Definition dont_know : string := "Don't know what to do for your compiler.".

(** Lines 55-60. *)
Definition fallthrough_section : list directive :=
  [ PIf (HasCppAttribute "fallthrough")
      [ PDefine "GEM5_FALLTHROUGH"
          (object_like [lb; lb; TId "fallthrough"; rb; rb]) ]
      [ PDefine "GEM5_FALLTHROUGH" (object_like []) ] ].

(** Lines 64-69. *)
Definition nodiscard_section : list directive :=
  [ PIf (HasCppAttribute "nodiscard")
      [ PDefine "GEM5_NO_DISCARD"
          (object_like [lb; lb; TId "nodiscard"; rb; rb]) ]
      [ PDefine "GEM5_NO_DISCARD" (object_like []) ] ].

(** Lines 73-81. *)
Definition var_used_section : list directive :=
  [ PIf (HasCppAttribute "maybe_unused")
      [ PDefine "GEM5_VAR_USED"
          (object_like [lb; lb; TId "maybe_unused"; rb; rb]) ]
      [ PIf (Defined "__GNUC__")
          [ PDefine "GEM5_VAR_USED"
              (object_like [lb; lb; TId "gnu"; TP "::"; TId "unused"; rb; rb]) ]
          [ PError dont_know ] ] ].

(** Lines 88-152: the macros of the [defined(__GNUC__)] branch, each with
    its replacement list. *)

(** [#  define GEM5_PACKED [[gnu::packed]]] *)
Definition GEM5_PACKED : macro :=
  object_like [lb; lb; TId "gnu"; TP "::"; TId "packed"; rb; rb].

(** [#  define GEM5_NO_INLINE [[gnu::noinline]]] *)
Definition GEM5_NO_INLINE : macro :=
  object_like [lb; lb; TId "gnu"; TP "::"; TId "noinline"; rb; rb].

(** Line 98, with its single colon after [gnu]. *)
Definition GEM5_PUBLIC : macro :=
  object_like [lb; lb; TId "gnu"; TP ":"; TId "visibility";
               lp; TStr "default"; rp; rb; rb].

(** Line 99. *)
Definition GEM5_LOCAL : macro :=
  object_like [lb; lb; TId "gnu"; TP "::"; TId "visibility";
               lp; TStr "hidden"; rp; rb; rb].

(** [#  define GEM5_WEAK [[gnu::weak]]] *)
Definition GEM5_WEAK : macro :=
  object_like [lb; lb; TId "gnu"; TP "::"; TId "weak"; rb; rb].

(** [#  define GEM5_ALIGNED(alignment) [[gnu::aligned(alignment)]]] *)
Definition GEM5_ALIGNED : macro :=
  function_like ["alignment"]
    [lb; lb; TId "gnu"; TP "::"; TId "aligned"; lp; TId "alignment"; rp;
     rb; rb].

(** [#  define GEM5_UNREACHABLE __builtin_unreachable()] *)
Definition GEM5_UNREACHABLE : macro :=
  object_like [TId "__builtin_unreachable"; lp; rp].

(** [#  define GEM5_LIKELY(cond) __builtin_expect(!!(cond), 1)] *)
Definition GEM5_LIKELY : macro :=
  function_like ["cond"]
    [TId "__builtin_expect"; lp; TP "!"; TP "!"; lp; TId "cond"; rp;
     comma; TNum 1; rp].

(** [#  define GEM5_UNLIKELY(cond) __builtin_expect(!!(cond), 0)] *)
Definition GEM5_UNLIKELY : macro :=
  function_like ["cond"]
    [TId "__builtin_expect"; lp; TP "!"; TP "!"; lp; TId "cond"; rp;
     comma; TNum 0; rp].

(** [#  define GEM5_DEPRECATED(message) [[gnu::deprecated(message)]]] *)
Definition GEM5_DEPRECATED : macro :=
  function_like ["message"]
    [lb; lb; TId "gnu"; TP "::"; TId "deprecated"; lp; TId "message"; rp;
     rb; rb].

(** Line 125: [GEM5_DEPRECATED_ENUM_VAL(message) GEM5_DEPRECATED(message)];
    line 127: the same macro with an empty replacement list. *)
Definition GEM5_DEPRECATED_ENUM_VAL (gated_in : bool) : macro :=
  if gated_in
  then function_like ["message"] [TId "GEM5_DEPRECATED"; lp; TId "message"; rp]
  else function_like ["message"] [].

(** Lines 134-135:
    [([](){GEM5_DEPRECATED(message) int name{}; return name;}, (definition))] *)
Definition GEM5_DEPRECATED_MACRO : macro :=
  function_like ["name"; "definition"; "message"]
    [lp; lb; rb; lp; rp; lc;
       TId "GEM5_DEPRECATED"; lp; TId "message"; rp;
       TId "int"; TId "name"; lc; rc; semi;
       TId "return"; TId "name"; semi; rc;
     comma; lp; TId "definition"; rp; rp].

(** Lines 138-139:
    [do {{definition;} GEM5_DEPRECATED_MACRO(name, {}, message);} while (0)] *)
Definition GEM5_DEPRECATED_MACRO_STMT : macro :=
  function_like ["name"; "definition"; "message"]
    [TId "do"; lc; lc; TId "definition"; semi; rc;
       TId "GEM5_DEPRECATED_MACRO"; lp; TId "name"; comma;
         lc; rc; comma; TId "message"; rp; semi; rc;
     TId "while"; lp; TNum 0; rp].

(** Lines 147-148:
    [do { GEM5_VAR_USED int i[] = { 0, ((void)(__VA_ARGS__), 0)... }; } while (0)] *)
Definition GEM5_FOR_EACH_IN_PACK : macro :=
  variadic []
    [TId "do"; lc; TId "GEM5_VAR_USED"; TId "int"; TId "i"; lb; rb;
       TP "="; lc; TNum 0; comma;
         lp; lp; TId "void"; rp; lp; TId "__VA_ARGS__"; rp;
           comma; TNum 0; rp; TP "..."; rc; semi; rc;
     TId "while"; lp; TNum 0; rp].

Definition compiler_specific_section : list directive :=
  [ PIf (Defined "__GNUC__")
      [ PDefine "GEM5_PACKED" GEM5_PACKED;
        PDefine "GEM5_NO_INLINE" GEM5_NO_INLINE;
        PDefine "GEM5_PUBLIC" GEM5_PUBLIC;
        PDefine "GEM5_LOCAL" GEM5_LOCAL;
        PDefine "GEM5_WEAK" GEM5_WEAK;
        PDefine "GEM5_ALIGNED" GEM5_ALIGNED;
        PDefine "GEM5_UNREACHABLE" GEM5_UNREACHABLE;
        PDefine "GEM5_LIKELY" GEM5_LIKELY;
        PDefine "GEM5_UNLIKELY" GEM5_UNLIKELY;
        PDefine "GEM5_DEPRECATED" GEM5_DEPRECATED;
        PIf (LOr (Defined "__clang__") (Ge (Ident "__GNUC__") (Const 6)))
          [ PDefine "GEM5_DEPRECATED_ENUM_VAL" (GEM5_DEPRECATED_ENUM_VAL true) ]
          [ PDefine "GEM5_DEPRECATED_ENUM_VAL" (GEM5_DEPRECATED_ENUM_VAL false) ];
        PDefine "GEM5_DEPRECATED_MACRO" GEM5_DEPRECATED_MACRO;
        PDefine "GEM5_DEPRECATED_MACRO_STMT" GEM5_DEPRECATED_MACRO_STMT;
        PDefine "GEM5_FOR_EACH_IN_PACK" GEM5_FOR_EACH_IN_PACK ]
      [ PError dont_know ] ].

(** Lines 158-162. *)
Definition class_var_used_section : list directive :=
  [ PIf (Defined "__clang__")
      [ PDefine "GEM5_CLASS_VAR_USED" (object_like [TId "GEM5_VAR_USED"]) ]
      [ PDefine "GEM5_CLASS_VAR_USED" (object_like []) ] ].

(** Lines 165-178: aliases for macros using the deprecated M5 prefix. *)
Definition alias_section : list directive :=
  [ PDefine "M5_VAR_USED" (object_like [TId "GEM5_VAR_USED"]);
    PDefine "M5_NODISCARD" (object_like [TId "GEM5_NO_DISCARD"]);
    PDefine "M5_FALLTHROUGH" (object_like [TId "GEM5_FALLTHROUGH"]);
    PDefine "M5_ATTR_PACKED" (object_like [TId "GEM5_PACKED"]);
    PDefine "M5_NO_INLINE" (object_like [TId "GEM5_NO_INLINE"]);
    PDefine "M5_PUBLIC" (object_like [TId "GEM5_PUBLIC"]);
    PDefine "M5_LOCAL" (object_like [TId "GEM5_LOCAL"]);
    PDefine "M5_WEAK" (object_like [TId "GEM5_WEAK"]);
    PDefine "M5_ALIGNED"
      (function_like ["x"] [TId "GEM5_ALIGNED"; lp; TId "x"; rp]);
    PDefine "M5_UNREACHABLE" (object_like [TId "GEM5_UNREACHABLE"]);
    PDefine "M5_LIKELY"
      (function_like ["x"] [TId "GEM5_LIKELY"; lp; TId "x"; rp]);
    PDefine "M5_UNLIKELY"
      (function_like ["x"] [TId "GEM5_UNLIKELY"; lp; TId "x"; rp]);
    PDefine "M5_FOR_EACH_IN_PACK"
      (variadic [] [TId "GEM5_FOR_EACH_IN_PACK"; lp; TId "__VA_ARGS__"; rp]);
    PDefine "M5_CLASS_VAR_USED" (object_like [TId "GEM5_CLASS_VAR_USED"]) ].

(** Lines 41-180: the whole header inside its include guard. *)
Definition compiler_hh : list directive :=
  [ PIf (LNot (Defined "__BASE_COMPILER_HH__"))
      ( PDefine "__BASE_COMPILER_HH__" (object_like [])
        :: PInclude "memory"
        :: fallthrough_section
        ++ nodiscard_section
        ++ var_used_section
        ++ compiler_specific_section
        ++ class_var_used_section
        ++ alias_section )
      [] ].

(** Preprocessing a translation unit that starts with the header. *)
Definition preprocess (tc : toolchain) : result :=
  run_all tc compiler_hh [].

(** *** Macro expansion *)

(** The tokens of a parenthesised group whose opening parenthesis has been
    read, and the tokens after its closing parenthesis.  [depth] counts the
    parentheses opened inside the group. *)
Fixpoint collect (depth : nat) (toks : tokens) : option (tokens * tokens) :=
  match toks with
  | [] => None
  | t :: rest =>
      if is_punct ")" t then
        match depth with
        | O => Some ([], rest)
        | S d =>
            match collect d rest with
            | Some (inner, rest') => Some (t :: inner, rest')
            | None => None
            end
        end
      else
        match collect (if is_punct "(" t then S depth else depth) rest with
        | Some (inner, rest') => Some (t :: inner, rest')
        | None => None
        end
  end.

(** The arguments of an invocation: the group split at the commas that are
    not inside nested parentheses. *)
Fixpoint split_args (depth : nat) (toks : tokens) : list tokens :=
  match toks with
  | [] => [[]]
  | t :: rest =>
      if is_punct "," t && Nat.eqb depth 0 then [] :: split_args depth rest
      else
        let depth' :=
          if is_punct "(" t then S depth
          else if is_punct ")" t then Nat.pred depth
          else depth in
        match split_args depth' rest with
        | a :: args => (t :: a) :: args
        | [] => [[t]]
        end
  end.

Fixpoint join_args (args : list tokens) : tokens :=
  match args with
  | [] => []
  | [a] => a
  | a :: args' => a ++ comma :: join_args args'
  end.

(** Binding of parameters to arguments.  A macro without parameters is
    invoked with an empty group; a variadic macro binds the arguments after
    the named ones, commas included, to [__VA_ARGS__]. *)
Fixpoint bind_args (ps : list string) (is_variadic : bool) (args : list tokens)
  : option (list (string * tokens)) :=
  match ps, args with
  | [], [] => if is_variadic then Some [("__VA_ARGS__", [])] else Some []
  | [], _ :: _ =>
      if is_variadic then Some [("__VA_ARGS__", join_args args)] else None
  | p :: ps', a :: args' =>
      match bind_args ps' is_variadic args' with
      | Some env => Some ((p, a) :: env)
      | None => None
      end
  | _ :: _, [] => None
  end.

Definition invocation_args (m_ps : list string) (is_variadic : bool)
    (inner : tokens) : option (list (string * tokens)) :=
  match m_ps, is_variadic, inner with
  | [], false, [] => Some []
  | _, _, _ => bind_args m_ps is_variadic (split_args 0 inner)
  end.

Fixpoint assoc (x : string) (env : list (string * tokens)) : option tokens :=
  match env with
  | [] => None
  | (k, v) :: env' => if String.eqb k x then Some v else assoc x env'
  end.

(** Replacement of the parameters in a macro body. *)
Fixpoint subst (env : list (string * tokens)) (body : tokens) : tokens :=
  match body with
  | [] => []
  | TId x :: body' =>
      match assoc x env with
      | Some a => a ++ subst env body'
      | None => TId x :: subst env body'
      end
  | t :: body' => t :: subst env body'
  end.

Definition keep (t : token) (r : option tokens) : option tokens :=
  match r with
  | Some ts => Some (t :: ts)
  | None => None
  end.

(** Expansion of all macro invocations in a token list.  The replacement
    of an invocation is rescanned together with the tokens that follow it;
    each replacement consumes one unit of [fuel].  [None]: the fuel ran out,
    or an invocation is malformed (unterminated or wrong argument count).

    An argument is put in place of its parameter as it is written, and the
    macros it names are replaced when the result is rescanned.  The
    preprocessor replaces them before it puts the argument in place.  The
    two agree on every invocation whose arguments name no macro
    ([macro_free], [plain_invocation] below); they can differ when the
    replacement of a macro in an argument has a comma outside parentheses,
    and the results on what an invocation with arguments expands to are
    stated for arguments that name no macro. *)
Fixpoint expand (fuel : nat) (tbl : table) (toks : tokens) {struct fuel}
  : option tokens :=
  (fix scan (toks : tokens) : option tokens :=
     match toks with
     | [] => Some []
     | TId n :: rest =>
         match lookup n tbl with
         | None => keep (TId n) (scan rest)
         | Some m =>
             match m_params m with
             | None =>
                 match fuel with
                 | O => None
                 | S fuel' => expand fuel' tbl (m_body m ++ rest)
                 end
             | Some ps =>
                 match rest with
                 | t :: rest' =>
                     if is_punct "(" t then
                       match collect 0 rest' with
                       | None => None
                       | Some (inner, rest'') =>
                           match invocation_args ps (m_variadic m) inner with
                           | None => None
                           | Some env =>
                               match fuel with
                               | O => None
                               | S fuel' =>
                                   expand fuel' tbl
                                     (subst env (m_body m) ++ rest'')
                               end
                           end
                       end
                     else keep (TId n) (scan rest)
                 | [] => Some [TId n]
                 end
             end
         end
     | t :: rest => keep t (scan rest)
     end) toks.

(** Tokens none of whose identifiers names a macro. *)
Definition is_macro (tbl : table) (t : token) : bool :=
  match t with
  | TId n => match lookup n tbl with Some _ => true | None => false end
  | _ => false
  end.

Definition macro_free (tbl : table) (toks : tokens) : bool :=
  forallb (fun t => negb (is_macro tbl t)) toks.

(** The nesting depth after [a], starting at depth [d]; [None] when [a]
    closes a parenthesis it did not open or has a comma outside all
    parentheses. *)
Fixpoint arg_depth (d : nat) (a : tokens) : option nat :=
  match a with
  | [] => Some d
  | t :: a' =>
      if is_punct ")" t then
        match d with
        | O => None
        | S d' => arg_depth d' a'
        end
      else if is_punct "," t && Nat.eqb d 0 then None
      else arg_depth (if is_punct "(" t then S d else d) a'
  end.

(** Tokens that form one macro argument. *)
Definition simple_arg (a : tokens) : bool :=
  match arg_depth 0 a with
  | Some O => true
  | _ => false
  end.

(** [toks] expands to [out] in [tbl]. *)
Definition expands_to (tbl : table) (toks out : tokens) : Prop :=
  exists fuel, expand fuel tbl toks = Some out.

(** *** The two naming schemes *)

Definition modern_prefix : string := "GEM5_".
Definition legacy_prefix : string := "M5_".

Definition names (tbl : table) : list string := map fst tbl.

Definition modern_names (tbl : table) : list string :=
  filter (String.prefix modern_prefix) (names tbl).

Definition legacy_names (tbl : table) : list string :=
  filter (String.prefix legacy_prefix) (names tbl).

(** The forms of the alias definitions of lines 165-178: [#define L G],
    [#define L(x) G(x)] and [#define L(...) G(__VA_ARGS__)]. *)
Inductive alias_shape : Type :=
| AObj (g : string)
| AFun (x g : string)
| AVar (g : string).

Definition alias_shape_of (m : macro) : option alias_shape :=
  match m_params m, m_variadic m, m_body m with
  | None, false, [TId g] => Some (AObj g)
  | Some [x], false, [TId g; t1; TId x'; t2] =>
      if is_punct "(" t1 && is_punct ")" t2 && String.eqb x x'
         && negb (String.eqb x g)
      then Some (AFun x g) else None
  | Some [], true, [TId g; t1; TId x'; t2] =>
      if is_punct "(" t1 && is_punct ")" t2 && String.eqb "__VA_ARGS__" x'
         && negb (String.eqb "__VA_ARGS__" g)
      then Some (AVar g) else None
  | _, _, _ => None
  end.

Definition target (a : alias_shape) : string :=
  match a with
  | AObj g => g
  | AFun _ g => g
  | AVar g => g
  end.

(** The modern macro a legacy name stands for. *)
Definition alias_of (tbl : table) (legacy : string) : option string :=
  if String.prefix legacy_prefix legacy then
    match lookup legacy tbl with
    | Some m =>
        match alias_shape_of m with
        | Some a =>
            if String.prefix modern_prefix (target a) then Some (target a)
            else None
        | None => None
        end
    | None => None
    end
  else None.

(** [n] followed by [rest] is a macro invocation. *)
Definition invoked (tbl : table) (n : string) (rest : tokens) : bool :=
  match lookup n tbl with
  | Some m =>
      match m_params m, rest with
      | None, _ => true
      | Some _, t :: _ => is_punct "(" t
      | Some _, [] => false
      end
  | None => false
  end.

(** [n] followed by [rest] is a macro invocation whose arguments, if it
    takes any, are closed by a parenthesis and name no macro. *)
Definition plain_invocation (tbl : table) (n : string) (rest : tokens) : bool :=
  match lookup n tbl with
  | Some m =>
      match m_params m, rest with
      | None, _ => true
      | Some _, t :: r =>
          is_punct "(" t &&
          match collect 0 r with
          | Some (inner, _) => macro_free tbl inner
          | None => false
          end
      | Some _, [] => false
      end
  | None => false
  end.

(** The alias passes its arguments on to a macro of the same arity. *)
Definition forwards (tbl : table) (legacy : string) : bool :=
  match lookup legacy tbl with
  | Some m =>
      match alias_shape_of m with
      | Some (AObj g) =>
          match lookup g tbl with
          | Some m' => match m_params m' with None => true | Some _ => false end
          | None => false
          end
      | Some (AFun _ g) =>
          match lookup g tbl with
          | Some m' =>
              match m_params m', m_variadic m' with
              | Some [_], false => true
              | _, _ => false
              end
          | None => false
          end
      | Some (AVar g) =>
          match lookup g tbl with
          | Some m' =>
              match m_params m', m_variadic m' with
              | Some [], true => true
              | _, _ => false
              end
          | None => false
          end
      | None => false
      end
  | None => false
  end.

(** *** Example toolchains *)

Definition cxx17_attributes (a : string) : Z :=
  if String.eqb a "fallthrough" then 201603
  else if String.eqb a "nodiscard" then 201603
  else if String.eqb a "maybe_unused" then 201603
  else 0.

Definition no_attributes (a : string) : Z := 0.

Definition gcc9_cxx17 : toolchain := Toolchain cxx17_attributes (Some 9) false.
Definition gcc5_cxx14 : toolchain := Toolchain no_attributes (Some 5) false.
Definition clang10_cxx17 : toolchain := Toolchain cxx17_attributes (Some 4) true.
Definition other_cxx17 : toolchain := Toolchain cxx17_attributes None false.
Definition other_cxx14 : toolchain := Toolchain no_attributes None false.

(** The macro table after the header; empty when the header was refused. *)
Definition table_of (tc : toolchain) : table :=
  match preprocess tc with
  | Ok tbl => tbl
  | Failed _ => []
  end.

(** [__has_cpp_attribute(a)] is not 0. *)
Definition supports (tc : toolchain) (a : string) : bool :=
  negb (has_cpp_attribute tc a =? 0).

(** The toolchain with the given outcomes of the header's five tests:
    the three attribute tests, [__GNUC__] (undefined, below 6, at least 6)
    and [__clang__]. *)
Definition canonical (ft nd mu : bool) (g : option bool) (cl : bool) : toolchain :=
  Toolchain
    (fun a =>
       if String.eqb a "fallthrough" then Z.b2z ft
       else if String.eqb a "nodiscard" then Z.b2z nd
       else if String.eqb a "maybe_unused" then Z.b2z mu
       else 0)
    (option_map (fun (b : bool) => if b then 6 else 5) g)
    cl.

(** The canonical toolchain on which the header's tests come out as on
    [tc]. *)
Definition features_of (tc : toolchain) : toolchain :=
  canonical (supports tc "fallthrough") (supports tc "nodiscard")
    (supports tc "maybe_unused")
    (option_map (fun v => 6 <=? v) (gnuc tc)) (clang tc).

(** The table a gcc or clang toolchain ends up with; [enum_ok] is the
    outcome of [__GNUC__ >= 6]. *)
Definition gnu_table (ft nd mu enum_ok cl : bool) : table :=
  table_of (canonical ft nd mu (Some enum_ok) cl).

(** The invocation [n(a1, ..., ak)]. *)
Definition call (n : string) (args : list tokens) : tokens :=
  TId n :: lp :: join_args args ++ [rp].

(** The macros that every gcc or clang toolchain gets with the same
    replacement list. *)
Definition fixed_macros : list (string * macro) :=
  [ ("GEM5_PACKED", GEM5_PACKED);
    ("GEM5_NO_INLINE", GEM5_NO_INLINE);
    ("GEM5_PUBLIC", GEM5_PUBLIC);
    ("GEM5_LOCAL", GEM5_LOCAL);
    ("GEM5_WEAK", GEM5_WEAK);
    ("GEM5_ALIGNED", GEM5_ALIGNED);
    ("GEM5_UNREACHABLE", GEM5_UNREACHABLE);
    ("GEM5_LIKELY", GEM5_LIKELY);
    ("GEM5_UNLIKELY", GEM5_UNLIKELY);
    ("GEM5_DEPRECATED", GEM5_DEPRECATED);
    ("GEM5_DEPRECATED_MACRO", GEM5_DEPRECATED_MACRO);
    ("GEM5_DEPRECATED_MACRO_STMT", GEM5_DEPRECATED_MACRO_STMT);
    ("GEM5_FOR_EACH_IN_PACK", GEM5_FOR_EACH_IN_PACK) ].

(** The names the header defines when it is accepted. *)
Definition header_names : list string :=
  Eval vm_compute in names (table_of gcc9_cxx17).

(** What all tables of accepted toolchains have in common. *)
Definition core (tbl : table) : Prop :=
  names tbl = header_names /\
  Forall (fun nm => lookup (fst nm) tbl = Some (snd nm)) fixed_macros.

(** [[[gnu::deprecated(message)]]] *)
Definition deprecated_attribute (message : tokens) : tokens :=
  subst [("message", message)] (m_body GEM5_DEPRECATED).

(** The tokens [GEM5_DEPRECATED_MACRO(name, definition, message)] stands
    for once every macro in it is replaced:
    [([](){[[gnu::deprecated(message)]] int name{}; return name;}, (definition))] *)
Definition deprecated_macro_expr (name : string) (definition : tokens)
    (message : string) : tokens :=
  [lp; lb; rb; lp; rp; lc]
    ++ deprecated_attribute [TStr message]
    ++ [TId "int"; TId name; lc; rc; semi; TId "return"; TId name; semi; rc;
        comma; lp]
    ++ definition ++ [rp; rp].

(** The tokens [GEM5_DEPRECATED_MACRO_STMT(name, definition, message)]
    stands for:
    [do {{definition;} (...deprecated_macro_expr of {}...);} while (0)] *)
Definition deprecated_macro_stmt (name : string) (definition : tokens)
    (message : string) : tokens :=
  [TId "do"; lc; lc] ++ definition ++ [semi; rc]
    ++ deprecated_macro_expr name [lc; rc] message
    ++ [semi; rc; TId "while"; lp; TNum 0; rp].

(** The advisory markers with the feature test that selects them, and the
    directives that define them (lines 55-81). *)
Definition advisory_markers : list (string * string) :=
  [ ("GEM5_FALLTHROUGH", "fallthrough");
    ("GEM5_NO_DISCARD", "nodiscard");
    ("GEM5_VAR_USED", "maybe_unused") ].

Definition advisory_sections : list directive :=
  fallthrough_section ++ nodiscard_section ++ var_used_section.

(** Every advisory marker whose attribute the toolchain lacks is defined
    with an empty expansion, and defining them does not stop the build. *)
Definition degrades_silently (tc : toolchain) : Prop :=
  exists tbl,
    run_all tc advisory_sections [] = Ok tbl /\
    Forall (fun na =>
              supports tc (snd na) = false ->
              expand 1 tbl [TId (fst na)] = Some [])
           advisory_markers.

(** Wherever [legacy] is invoked with arguments that name no macro,
    writing [modern] instead yields the same tokens. *)
Definition same_expansion (tbl : table) (legacy modern : string) : Prop :=
  forall rest,
    plain_invocation tbl legacy rest = true ->
    forall out,
      expands_to tbl (TId legacy :: rest) out <->
      expands_to tbl (TId modern :: rest) out.

(** Every modern macro has a legacy alias. *)
Definition every_modern_has_alias (tbl : table) : Prop :=
  forall modern,
    In modern (modern_names tbl) ->
    exists legacy, alias_of tbl legacy = Some modern.

(** [modern] is the target of some legacy alias. *)
Definition aliased (tbl : table) (modern : string) : bool :=
  existsb (fun legacy =>
             match alias_of tbl legacy with
             | Some g => String.eqb g modern
             | None => false
             end)
          (legacy_names tbl).

(** The modern macros of the deprecation family. *)
Definition deprecation_family : list string :=
  [ "GEM5_DEPRECATED"; "GEM5_DEPRECATED_ENUM_VAL"; "GEM5_DEPRECATED_MACRO";
    "GEM5_DEPRECATED_MACRO_STMT" ].

(** Checks, by computation on a table, of what the alias block promises:
    every legacy name forwards to a modern macro of the table, no two
    legacy names share a target, and the modern macros without an alias
    are those of the deprecation family. *)
Definition alias_target_ok (tbl : table) (legacy : string) : bool :=
  forwards tbl legacy &&
  match alias_of tbl legacy with
  | Some g => existsb (String.eqb g) (modern_names tbl)
  | None => false
  end.

Definition aliases_injective (tbl : table) : bool :=
  forallb (fun l1 =>
     forallb (fun l2 =>
        match alias_of tbl l1, alias_of tbl l2 with
        | Some g1, Some g2 => implb (String.eqb g1 g2) (String.eqb l1 l2)
        | _, _ => true
        end) (legacy_names tbl)) (legacy_names tbl).

Definition unaliased_are_deprecation (tbl : table) : bool :=
  forallb (fun g =>
     Bool.eqb (aliased tbl g)
              (negb (existsb (String.eqb g) deprecation_family)))
    (modern_names tbl).

Definition alias_check (tbl : table) : bool :=
  forallb (alias_target_ok tbl) (legacy_names tbl)
  && aliases_injective tbl
  && unaliased_are_deprecation tbl.

End Cpp.

Import Cpp.

(* ================================================================= *)
(** ** The C++ syntax the expansions have to fit *)

Module Syntax.

(** The bracket that closes the one [t] opens. *)
Definition closer (t : token) : option string :=
  if is_punct "(" t then Some ")"
  else if is_punct "[" t then Some "]"
  else if is_punct "{" t then Some "}"
  else None.

Definition closing (t : token) : bool :=
  is_punct ")" t || is_punct "]" t || is_punct "}" t.

Definition push (t : token) (stack : list string) : list string :=
  match closer t with
  | Some c => c :: stack
  | None => stack
  end.

Definition is_id (s : string) (t : token) : bool :=
  match t with
  | TId x => String.eqb x s
  | _ => false
  end.

(** The words that begin or divide statements. *)
Definition keyword (t : token) : bool :=
  match t with
  | TId x =>
      existsb (String.eqb x)
        ["do"; "while"; "if"; "else"; "for"; "switch"; "case"; "default";
         "break"; "continue"; "return"; "goto"; "try"; "catch"]
  | _ => false
  end.

Definition prepend (t : token) (r : option (tokens * tokens))
  : option (tokens * tokens) :=
  match r with
  | Some (inner, rest) => Some (t :: inner, rest)
  | None => None
  end.

(** The tokens up to the punctuator [stop] that stands outside all
    brackets, and the tokens after it.  Parentheses, square brackets and
    braces have to match in kind; [stack] holds the closing brackets still
    expected.  With [strict], the search is for the extent of an expression
    where a statement is read: a semicolon, an opening brace or a statement
    keyword outside all brackets ends it without a result. *)
Fixpoint span (stop : string) (strict : bool) (stack : list string)
    (toks : tokens) : option (tokens * tokens) :=
  match toks with
  | [] => None
  | t :: rest =>
      match stack with
      | [] =>
          if is_punct stop t then Some ([], rest)
          else if closing t then None
          else if strict && (is_punct ";" t || is_punct "{" t || keyword t)
          then None
          else prepend t (span stop strict (push t []) rest)
      | c :: stack' =>
          if is_punct c t then prepend t (span stop strict stack' rest)
          else if closing t then None
          else prepend t (span stop strict (push t stack) rest)
      end
  end.

(** All brackets of [toks] match, given the closing brackets [stack]
    expected on entry. *)
Fixpoint matched (stack : list string) (toks : tokens) : bool :=
  match toks with
  | [] => match stack with [] => true | _ :: _ => false end
  | t :: rest =>
      match stack with
      | [] => if closing t then false else matched (push t []) rest
      | c :: stack' =>
          if is_punct c t then matched stack' rest
          else if closing t then false
          else matched (push t stack) rest
      end
  end.

(** A balanced token sequence. *)
Definition balanced (toks : tokens) : bool := matched [] toks.

(** An attribute argument clause: nothing, or a balanced token sequence
    between parentheses, the closing one being the last token. *)
Definition argument_clause (toks : tokens) : bool :=
  match toks with
  | [] => true
  | t :: rest =>
      is_punct "(" t &&
      match span ")" false [] rest with
      | Some (_, []) => true
      | _ => false
      end
  end.

(** An attribute: [identifier argument-clause] or
    [namespace :: identifier argument-clause]. *)
Definition attribute (toks : tokens) : option (option string * string) :=
  match toks with
  | TId a :: rest =>
      match rest with
      | t :: TId b :: rest' =>
          if is_punct "::" t then
            if argument_clause rest' then Some (Some a, b) else None
          else if argument_clause rest then Some (None, a) else None
      | _ => if argument_clause rest then Some (None, a) else None
      end
  | _ => None
  end.

(** The tokens between [[[] and []]]. *)
Definition unbracket (toks : tokens) : option tokens :=
  match toks with
  | t1 :: t2 :: rest =>
      match rev rest with
      | r1 :: r2 :: inner =>
          if is_punct "[" t1 && is_punct "[" t2
             && is_punct "]" r1 && is_punct "]" r2
          then Some (rev inner) else None
      | _ => None
      end
  | _ => None
  end.

(** A well-formed attribute specifier with one attribute. *)
Definition attribute_specifier (toks : tokens) : option (option string * string) :=
  match unbracket toks with
  | Some inner => attribute inner
  | None => None
  end.

(** A well-formed attribute of the vendor namespace [ns]: [[[ns::...]]]. *)
Definition vendor_attribute (ns : string) (toks : tokens) : bool :=
  match attribute_specifier toks with
  | Some (Some n, _) => String.eqb n ns
  | _ => false
  end.

(** [( c )] with [c] the extent of an expression; the tokens after it. *)
Definition condition (toks : tokens) : option tokens :=
  match toks with
  | [] => None
  | t :: rest =>
      if is_punct "(" t then
        match span ")" true [] rest with
        | Some (_ :: _, rest') => Some rest'
        | _ => None
        end
      else None
  end.

(** The tokens left after one statement has been read from the front of
    [toks]: an empty, compound, do, if, while, jump or expression
    statement (a simple declaration has the extent of an expression
    statement).  A statement nested in another costs one unit of [fuel],
    and so does each statement of a block. *)
Fixpoint parse_statement (fuel : nat) (toks : tokens) {struct fuel}
  : option tokens :=
  match fuel with
  | O => None
  | S fuel' =>
      match toks with
      | [] => None
      | t :: rest =>
          if is_punct ";" t then Some rest
          else if is_punct "{" t then parse_block fuel' rest
          else if is_id "do" t then
            match parse_statement fuel' rest with
            | Some (w :: rest1) =>
                if is_id "while" w then
                  match condition rest1 with
                  | Some (s :: rest2) =>
                      if is_punct ";" s then Some rest2 else None
                  | _ => None
                  end
                else None
            | _ => None
            end
          else if is_id "if" t then
            match condition rest with
            | Some rest1 =>
                match parse_statement fuel' rest1 with
                | Some (e :: rest2) =>
                    if is_id "else" e then parse_statement fuel' rest2
                    else Some (e :: rest2)
                | other => other
                end
            | None => None
            end
          else if is_id "while" t then
            match condition rest with
            | Some rest1 => parse_statement fuel' rest1
            | None => None
            end
          else if is_id "break" t || is_id "continue" t then
            match rest with
            | s :: rest1 => if is_punct ";" s then Some rest1 else None
            | [] => None
            end
          else if is_id "return" t then
            match rest with
            | s :: rest1 =>
                if is_punct ";" s then Some rest1
                else option_map snd (span ";" true [] rest)
            | [] => None
            end
          else option_map snd (span ";" true [] toks)
      end
  end
with parse_block (fuel : nat) (toks : tokens) {struct fuel} : option tokens :=
  match fuel with
  | O => None
  | S fuel' =>
      match toks with
      | [] => None
      | t :: rest =>
          if is_punct "}" t then Some rest
          else
            match parse_statement fuel' toks with
            | Some rest' => parse_block fuel' rest'
            | None => None
            end
      end
  end.

Definition starts_with_else (toks : tokens) : bool :=
  match toks with
  | t :: _ => is_id "else" t
  | [] => false
  end.

(** [toks] reads as one statement, with [n] units of fuel or more,
    whatever follows it. *)
Definition closed_statement (n : nat) (toks : tokens) : Prop :=
  forall fuel r,
    (n <= fuel)%nat -> parse_statement fuel (toks ++ r) = Some r.

(** [toks] reads as one statement unless an [else] follows it (which an
    [if] without [else] would take). *)
Definition statement_before (n : nat) (toks : tokens) : Prop :=
  forall fuel r,
    (n <= fuel)%nat -> starts_with_else r = false ->
    parse_statement fuel (toks ++ r) = Some r.

(** [c] stands between the parentheses of a condition. *)
Definition condition_tokens (c : tokens) : Prop :=
  c <> [] /\
  forall rest, span ")" true [] (c ++ TP ")" :: rest) = Some (c, rest).

End Syntax.

(* ================================================================= *)
(** ** Run-time meaning of the expansions *)

Module Sem.

(** How a statement ends. *)
Inductive outcome (V : Type) : Type :=
| ONormal
| OBreak
| OContinue
| OReturn (v : V).

Arguments ONormal {V}.
Arguments OBreak {V}.
Arguments OContinue {V}.
Arguments OReturn {V} v.

Section Runtime.

Variable state : Type.

(** Values: [bool], [int] and [long] are integers; a lambda expression
    yields a closure holding its body. *)
Inductive value : Type :=
| VInt (z : Z)
| VVoid
| VClosure (body : state -> option (outcome value * state)).

(** Computations over the program state; [None] when the evaluation does
    not yield a result. *)
Definition M (A : Type) : Type := state -> option (A * state).

Definition ret {A : Type} (a : A) : M A := fun s => Some (a, s).

Definition bind {A B : Type} (m : M A) (k : A -> M B) : M B :=
  fun s =>
    match m s with
    | Some (a, s') => k a s'
    | None => None
    end.

Definition stuck {A : Type} : M A := fun _ => None.

Definition expr : Type := M value.
Definition stmt : Type := M (outcome value).

(** The declarations of [operator,] in scope where a macro is used, as
    overload resolution sees them: the call it selects for operands of
    these values, or [None] when no declared operator is viable and the
    built-in one is meant.  The header declares none; the translation unit
    that uses a macro may. *)
Definition comma_operators : Type := value -> value -> option expr.

Variable user_comma : comma_operators.

(** Contextual conversion to [bool].  An integer is true when it is not 0.
    A closure of a lambda without captures (the header writes no other)
    converts to a pointer to function, which is not null.  An expression of
    type [void] does not convert. *)
Definition to_bool (v : value) : M bool :=
  match v with
  | VInt z => ret (negb (z =? 0))
  | VClosure _ => ret true
  | VVoid => stuck
  end.

(** Conversion to [long]. *)
Definition to_long (v : value) : M Z :=
  match v with
  | VInt z => ret z
  | _ => stuck
  end.

(** *** Expressions *)

Definition lit (z : Z) : expr := ret (VInt z).

(** [(e)] *)
Definition paren (e : expr) : expr := e.

(** [!e] *)
Definition lnot (e : expr) : expr :=
  bind e (fun v => bind (to_bool v) (fun b => ret (VInt (Z.b2z (negb b))))).

(** [long __builtin_expect(long exp, long c)]: the value of [exp]. *)
Definition builtin_expect (exp c : expr) : expr :=
  bind exp (fun v => bind (to_long v) (fun x =>
  bind c (fun w => bind (to_long w) (fun _ => ret (VInt x))))).

(** A value of class type: the closure of a lambda expression. *)
Definition class_type (v : value) : bool :=
  match v with
  | VClosure _ => true
  | _ => false
  end.

Definition is_void (v : value) : bool :=
  match v with
  | VVoid => true
  | _ => false
  end.

(** [a, b].  The operands are evaluated left first.  When one of them has
    class type and neither has type [void], the operator is chosen by
    overload resolution among the declared [operator,] and the built-in
    one; otherwise, and when no declared one is viable, it is the built-in
    operator: the value of the left operand is discarded and the result is
    the right operand. *)
Definition comma_op (a b : expr) : expr :=
  bind a (fun x => bind b (fun y =>
    if (class_type x || class_type y) && negb (is_void x) && negb (is_void y)
    then match user_comma x y with
         | Some call => call
         | None => ret y
         end
    else ret y)).

(** [(void)e] *)
Definition cast_void (e : expr) : expr := bind e (fun _ => ret VVoid).

(** [[](){ body }]: evaluating the lambda expression builds the closure
    and does not run the body. *)
Definition lambda (body : stmt) : expr := ret (VClosure body).

(** A braced initializer list: the clauses are evaluated in the order in
    which they appear. *)
Fixpoint init_list (clauses : list expr) : M (list value) :=
  match clauses with
  | [] => ret []
  | e :: clauses' =>
      bind e (fun v => bind (init_list clauses') (fun vs => ret (v :: vs)))
  end.

(** *** Statements *)

(** [;] *)
Definition skip : stmt := ret ONormal.

(** [e;] *)
Definition expr_stmt (e : expr) : stmt := bind e (fun _ => ret ONormal).

(** [return e;] *)
Definition sreturn (e : expr) : stmt := bind e (fun v => ret (OReturn v)).

Definition seq (s1 s2 : stmt) : stmt :=
  bind s1 (fun o =>
    match o with
    | ONormal => s2
    | _ => ret o
    end).

(** [{ s1 s2 ... }] *)
Definition block (ss : list stmt) : stmt := fold_right seq skip ss.

(** A declaration with attributes [attrs]; [scope] is the rest of the
    block, where the variable is visible.  Attributes have no run-time
    effect. *)
Definition decl {A : Type} (attrs : tokens) (name : string) (init : M A)
    (scope : A -> stmt) : stmt :=
  bind init scope.

(** [do body while (cond);] *)
Fixpoint do_while (fuel : nat) (body : stmt) (cond : expr) : stmt :=
  match fuel with
  | O => stuck
  | S fuel' =>
      bind body (fun o =>
        match o with
        | OBreak => ret ONormal
        | OReturn v => ret (OReturn v)
        | ONormal | OContinue =>
            bind cond (fun c => bind (to_bool c) (fun b =>
              if b then do_while fuel' body cond else ret ONormal))
        end)
  end.

(** [({ })], the statement expression with an empty body: nothing runs and
    the value is of type [void].  The header writes no other statement
    expression, and none other is given a meaning. *)
Definition stmt_expr (ss : list stmt) : expr :=
  match ss with
  | [] => ret VVoid
  | _ :: _ => stuck
  end.

(** What a macro argument placed between parentheses can be: an
    expression, giving [(e)], or a compound statement, giving [({ ss })]. *)
Inductive operand : Type :=
| Expression (e : expr)
| Compound (ss : list stmt).

Definition paren_operand (x : operand) : expr :=
  match x with
  | Expression e => paren e
  | Compound ss => stmt_expr ss
  end.

(** *** The macros *)

(** [__builtin_expect(!!(cond), 1)] *)
Definition GEM5_LIKELY (cond : expr) : expr :=
  builtin_expect (lnot (lnot (paren cond))) (lit 1).

(** [__builtin_expect(!!(cond), 0)] *)
Definition GEM5_UNLIKELY (cond : expr) : expr :=
  builtin_expect (lnot (lnot (paren cond))) (lit 0).

(** [[[gnu::deprecated(message)]]] *)
Definition GEM5_DEPRECATED (message : string) : tokens :=
  Cpp.subst [("message", [TStr message])] (Cpp.m_body Cpp.GEM5_DEPRECATED).

(** The body of the lambda of [GEM5_DEPRECATED_MACRO]:
    [{GEM5_DEPRECATED(message) int name{}; return name;}] *)
Definition deprecated_variable (name message : string) : stmt :=
  block [ decl (GEM5_DEPRECATED message) name (ret 0)
            (fun name_ => block [ sreturn (lit name_) ]) ].

(** [([](){GEM5_DEPRECATED(message) int name{}; return name;}, (definition))] *)
Definition GEM5_DEPRECATED_MACRO (name : string) (definition : operand)
    (message : string) : expr :=
  paren (comma_op (lambda (deprecated_variable name message))
               (paren_operand definition)).

(** [do {{definition;} GEM5_DEPRECATED_MACRO(name, {}, message);} while (0)] *)
Definition GEM5_DEPRECATED_MACRO_STMT (fuel : nat) (name : string)
    (definition : stmt) (message : string) : stmt :=
  do_while fuel
    (block [ block [ definition ];
             expr_stmt (GEM5_DEPRECATED_MACRO name (Compound []) message) ])
    (lit 0).

(** The toolchain's expansion of [GEM5_VAR_USED]. *)
Variable GEM5_VAR_USED : tokens.

(** The initializer [{ 0, ((void)(__VA_ARGS__), 0)... }]; [pack] holds one
    instance of [__VA_ARGS__] per element of the expanded pack. *)
Definition pack_initializer (pack : list expr) : list expr :=
  lit 0 :: map (fun va_args => paren (comma_op (cast_void (paren va_args)) (lit 0)))
             pack.

(** [do { GEM5_VAR_USED int i[] = { 0, ((void)(__VA_ARGS__), 0)... }; } while (0)] *)
Definition GEM5_FOR_EACH_IN_PACK (fuel : nat) (pack : list expr) : stmt :=
  do_while fuel
    (block [ decl GEM5_VAR_USED "i" (init_list (pack_initializer pack))
               (fun i => block []) ])
    (lit 0).

(** *** What the claims compare the macros with *)

(** The built-in comma: both operands evaluated, left first, and the
    result is the right one. *)
Definition builtin_comma (a b : expr) : expr := bind a (fun _ => b).

(** The condition evaluated once, its truth value as the result. *)
Definition truth_value (cond : expr) : expr :=
  bind cond (fun v => bind (to_bool v) (fun b => ret (VInt (Z.b2z b)))).

(** The expressions evaluated one after the other, first to last, their
    values dropped. *)
Fixpoint in_order (es : list expr) : M unit :=
  match es with
  | [] => ret tt
  | e :: es' => bind e (fun _ => in_order es')
  end.

(** The statement run once, as the body of a loop that is left after one
    pass: [break] and [continue] end the pass, [return] leaves the
    function. *)
Definition once (s : stmt) : stmt :=
  bind s (fun o =>
    match o with
    | OReturn v => ret (OReturn v)
    | _ => ret ONormal
    end).

End Runtime.

Arguments VInt {state} z.
Arguments VVoid {state}.
Arguments VClosure {state} body.
Arguments ret {state A} a s.
Arguments bind {state A B} m k s.
Arguments stuck {state A} s.
Arguments to_bool {state} v s.
Arguments to_long {state} v s.
Arguments lit {state} z s.
Arguments paren {state} e s.
Arguments lnot {state} e s.
Arguments builtin_expect {state} exp c s.
Arguments class_type {state} v.
Arguments is_void {state} v.
Arguments comma_op {state} user_comma a b s.
Arguments cast_void {state} e s.
Arguments lambda {state} body s.
Arguments init_list {state} clauses s.
Arguments skip {state} s.
Arguments expr_stmt {state} e s.
Arguments sreturn {state} e s.
Arguments seq {state} s1 s2 s.
Arguments block {state} ss s.
Arguments decl {state A} attrs name init scope s.
Arguments do_while {state} fuel body cond s.
Arguments stmt_expr {state} ss s.
Arguments Expression {state} e.
Arguments Compound {state} ss.
Arguments paren_operand {state} x s.
Arguments GEM5_LIKELY {state} cond s.
Arguments GEM5_UNLIKELY {state} cond s.
Arguments deprecated_variable {state} name message s.
Arguments GEM5_DEPRECATED_MACRO {state} user_comma name definition message s.
Arguments GEM5_DEPRECATED_MACRO_STMT {state} user_comma fuel name definition
  message s.
Arguments pack_initializer {state} user_comma pack.
Arguments GEM5_FOR_EACH_IN_PACK {state} user_comma GEM5_VAR_USED fuel pack s.
Arguments builtin_comma {state} a b s.
Arguments truth_value {state} cond s.
Arguments in_order {state} es s.
Arguments once {state} s _.

(** *** An observable program state: a log of actions *)

Definition log : Type := list string.

(** An expression that records [msg] and evaluates to [v]. *)
Definition action (msg : string) (v : Z) : expr log :=
  fun s => Some (VInt v, s ++ [msg]).

(** A statement that records [msg]. *)
Definition perform (msg : string) : stmt log :=
  fun s => Some (ONormal, s ++ [msg]).

(** A translation unit that declares no [operator,]. *)
Definition no_user_comma {state : Type} : comma_operators state :=
  fun _ _ => None.

(** A translation unit that declares
    [template <class L> int operator,(L, int y)], which records its call
    and returns [y + 1000]: viable when the right operand is an integer. *)
Definition logging_comma : comma_operators log :=
  fun _ y =>
    match y with
    | VInt z => Some (action "operator," (z + 1000))
    | _ => None
    end.

End Sem.

(* ================================================================= *)
(** ** The header as a whole: what depends on what *)

Module Deps.

(** Two toolchains on which the header's five tests come out alike: the
    three attribute tests, [__clang__], and [__GNUC__] as far as the header
    looks at it (undefined, below 6, at least 6). *)
Definition agree (tc1 tc2 : toolchain) : Prop :=
  supports tc1 "fallthrough" = supports tc2 "fallthrough" /\
  supports tc1 "nodiscard" = supports tc2 "nodiscard" /\
  supports tc1 "maybe_unused" = supports tc2 "maybe_unused" /\
  clang tc1 = clang tc2 /\
  option_map (fun v => 6 <=? v) (gnuc tc1)
  = option_map (fun v => 6 <=? v) (gnuc tc2).

(** The macros named in the replacement list of [m]. *)
Definition mentions (tbl : table) (m : macro) : list string :=
  flat_map (fun t =>
              match t with
              | TId k => if is_macro tbl t then [k] else []
              | _ => []
              end)
           (m_body m).

(** The number of replacement steps a macro can set off, one after the
    other, looked up to [fuel] levels deep. *)
Fixpoint depth (fuel : nat) (tbl : table) (n : string) : nat :=
  match fuel with
  | O => O
  | S fuel' =>
      match lookup n tbl with
      | None => O
      | Some m =>
          S (fold_right Nat.max O (map (depth fuel' tbl) (mentions tbl m)))
      end
  end.

Definition rank (tbl : table) (n : string) : nat :=
  depth (length tbl) tbl n.

(** Every macro named in a replacement list has a smaller rank than the
    macro being defined. *)
Definition well_ranked (tbl : table) : bool :=
  forallb (fun nm =>
             forallb (fun k => Nat.ltb (rank tbl k) (rank tbl (fst nm)))
                     (mentions tbl (snd nm)))
          tbl.

Definition rank_bounded (bound : nat) (tbl : table) : bool :=
  forallb (fun nm => Nat.leb (rank tbl (fst nm)) bound) tbl.

(** No modern macro is defined in terms of a legacy name. *)
Definition legacy_free (tbl : table) : bool :=
  forallb (fun nm =>
             if String.prefix modern_prefix (fst nm)
             then forallb (fun k => negb (String.prefix legacy_prefix k))
                          (mentions tbl (snd nm))
             else true)
          tbl.

(** Every object-like macro is replaced completely within [fuel] steps. *)
Definition objects_expand (fuel : nat) (tbl : table) : bool :=
  forallb (fun nm =>
             match m_params (snd nm) with
             | Some _ => true
             | None =>
                 match expand fuel tbl [TId (fst nm)] with
                 | Some out => macro_free tbl out
                 | None => false
                 end
             end)
          tbl.

(** The markers that stand for an attribute, [GEM5_PUBLIC] apart, under
    both naming schemes. *)
Definition attribute_markers : list string :=
  [ "GEM5_FALLTHROUGH"; "GEM5_NO_DISCARD"; "GEM5_VAR_USED";
    "GEM5_CLASS_VAR_USED"; "GEM5_PACKED"; "GEM5_NO_INLINE";
    "GEM5_LOCAL"; "GEM5_WEAK";
    "M5_FALLTHROUGH"; "M5_NODISCARD"; "M5_VAR_USED";
    "M5_CLASS_VAR_USED"; "M5_ATTR_PACKED"; "M5_NO_INLINE";
    "M5_LOCAL"; "M5_WEAK" ].

(** Nothing, or one well-formed attribute specifier. *)
Definition empty_or_attribute (toks : tokens) : bool :=
  match toks with
  | [] => true
  | _ :: _ =>
      match Syntax.attribute_specifier toks with
      | Some _ => true
      | None => false
      end
  end.

Definition markers_well_formed (tbl : table) : bool :=
  forallb (fun n =>
             match expand 3 tbl [TId n] with
             | Some out => empty_or_attribute out
             | None => false
             end)
          attribute_markers.

(** [[[gnu::aligned(alignment)]]] *)
Definition aligned_attribute (alignment : tokens) : tokens :=
  subst [("alignment", alignment)] (m_body GEM5_ALIGNED).

(** [__builtin_expect(!!(cond), hint)] *)
Definition expect_tokens (cond : tokens) (hint : Z) : tokens :=
  [TId "__builtin_expect"; lp; TP "!"; TP "!"; lp] ++ cond
    ++ [rp; comma; TNum hint; rp].

(** The attribute [GEM5_VAR_USED] stands for. *)
Definition var_used_attribute (maybe_unused : bool) : tokens :=
  if maybe_unused
  then [lb; lb; TId "maybe_unused"; rb; rb]
  else [lb; lb; TId "gnu"; TP "::"; TId "unused"; rb; rb].

(** [do { attr int i[] = { 0, ((void)(va_args), 0)... }; } while (0)] *)
Definition for_each_tokens (attr va_args : tokens) : tokens :=
  [TId "do"; lc] ++ attr
    ++ [TId "int"; TId "i"; lb; rb; TP "="; lc; TNum 0; comma;
        lp; lp; TId "void"; rp; lp]
    ++ va_args
    ++ [rp; comma; TNum 0; rp; TP "..."; rc; semi; rc;
        TId "while"; lp; TNum 0; rp].

(** One parenthesised group: the first token opens a parenthesis that the
    last token closes. *)
Definition parenthesised (toks : tokens) : bool :=
  match toks with
  | [] => false
  | t :: rest =>
      is_punct "(" t &&
      match collect 0 rest with
      | Some (_, []) => true
      | _ => false
      end
  end.

End Deps.

(* ================================================================= *)
(** ** Jumps, for the statements handed to the wrappers *)

Module Flow.

(** [break;] *)
Definition sbreak {state : Type} : Sem.stmt state := Sem.ret Sem.OBreak.

(** [continue;] *)
Definition scontinue {state : Type} : Sem.stmt state := Sem.ret Sem.OContinue.

End Flow.

(* ================================================================= *)
(** ** Properties of the preprocessor model *)

Lemma collect_sound (toks : tokens) :
  forall depth inner rest,
    collect depth toks = Some (inner, rest) -> toks = inner ++ rp :: rest.
Proof.
  induction toks as [|t toks IH]; intros depth inner rest H; simpl in H.
  - discriminate.
  - destruct (is_punct ")" t) eqn:Ht.
    + assert (t = rp) as ->.
      { destruct t; simpl in Ht; try discriminate.
        apply String.eqb_eq in Ht. now subst. }
      destruct depth as [|d].
      * now inversion H.
      * destruct (collect d toks) as [[i r]|] eqn:Hc; inversion H; subst.
        simpl. f_equal. eauto.
    + destruct (collect _ toks) as [[i r]|] eqn:Hc; inversion H; subst.
      simpl. f_equal. eauto.
Qed.

Lemma split_args_nonempty (toks : tokens) :
  forall depth, split_args depth toks <> [].
Proof.
  induction toks as [|t toks IH]; intros depth; simpl.
  - discriminate.
  - destruct (is_punct "," t && Nat.eqb depth 0); [discriminate|].
    destruct (split_args _ toks); discriminate.
Qed.

Lemma join_split (toks : tokens) :
  forall depth, join_args (split_args depth toks) = toks.
Proof.
  induction toks as [|t toks IH]; intros depth; simpl.
  - reflexivity.
  - destruct (is_punct "," t && Nat.eqb depth 0) eqn:Hc.
    + apply andb_true_iff in Hc as [Hc _].
      assert (t = comma) as ->.
      { destruct t; simpl in Hc; try discriminate.
        apply String.eqb_eq in Hc. now subst. }
      specialize (IH depth).
      destruct (split_args depth toks) as [|a args] eqn:Hs.
      * now apply split_args_nonempty in Hs.
      * simpl. now rewrite <- IH.
    + match goal with
      | |- context [split_args ?d toks] =>
          specialize (IH d); destruct (split_args d toks) as [|a args] eqn:Hs
      end.
      * now apply split_args_nonempty in Hs.
      * destruct args as [|b args]; simpl in *; now rewrite <- IH.
Qed.

Lemma expand_unfold (fuel : nat) (tbl : table) (toks : tokens) :
  expand fuel tbl toks =
  match toks with
  | [] => Some []
  | TId n :: rest =>
      match lookup n tbl with
      | None => keep (TId n) (expand fuel tbl rest)
      | Some m =>
          match m_params m with
          | None =>
              match fuel with
              | O => None
              | S fuel' => expand fuel' tbl (m_body m ++ rest)
              end
          | Some ps =>
              match rest with
              | t :: rest' =>
                  if is_punct "(" t then
                    match collect 0 rest' with
                    | None => None
                    | Some (inner, rest'') =>
                        match invocation_args ps (m_variadic m) inner with
                        | None => None
                        | Some env =>
                            match fuel with
                            | O => None
                            | S fuel' =>
                                expand fuel' tbl (subst env (m_body m) ++ rest'')
                            end
                        end
                    end
                  else keep (TId n) (expand fuel tbl rest)
              | [] => Some [TId n]
              end
          end
      end
  | t :: rest => keep t (expand fuel tbl rest)
  end.
Proof. destruct fuel, toks as [|[] ?]; reflexivity. Qed.

(** Tokens without macro names pass through unchanged. *)
Lemma expand_plain_app (fuel : nat) (tbl : table) (pre rest : tokens) :
  macro_free tbl pre = true ->
  expand fuel tbl (pre ++ rest) =
  match expand fuel tbl rest with
  | Some out => Some (pre ++ out)
  | None => None
  end.
Proof.
  induction pre as [|t pre IH]; intros H; simpl.
  - now destruct (expand fuel tbl rest).
  - simpl in H. apply andb_true_iff in H as [Ht Hpre].
    rewrite expand_unfold. specialize (IH Hpre).
    destruct t as [n| | |]; simpl in *;
      try (destruct (lookup n tbl); [discriminate|]);
      rewrite IH; now destruct (expand fuel tbl rest).
Qed.

Lemma expand_plain (fuel : nat) (tbl : table) (toks : tokens) :
  macro_free tbl toks = true -> expand fuel tbl toks = Some toks.
Proof.
  intros H. rewrite <- (app_nil_r toks) at 1.
  rewrite expand_plain_app by assumption.
  rewrite (expand_unfold fuel tbl []). now rewrite app_nil_r.
Qed.

(** More fuel does not change an expansion. *)
Lemma expand_mono (tbl : table) (fuel : nat) :
  forall toks out,
    expand fuel tbl toks = Some out -> expand (S fuel) tbl toks = Some out.
Proof.
  induction fuel as [|fuel IHf]; intros toks;
    induction toks as [|t toks IHt]; intros out H;
    rewrite expand_unfold in H; rewrite expand_unfold;
    try assumption.
  - destruct t as [n| | |];
      try (destruct (expand 0 tbl toks) as [o|] eqn:He; [|discriminate];
           now rewrite (IHt o eq_refl)).
    destruct (lookup n tbl) as [m|].
    + destruct (m_params m) as [ps|]; [|discriminate].
      destruct toks as [|t toks]; [assumption|].
      destruct (is_punct "(" t).
      * destruct (collect 0 toks) as [[inner r]|]; [|discriminate].
        destruct (invocation_args ps (m_variadic m) inner); discriminate.
      * destruct (expand 0 tbl (t :: toks)) as [o|] eqn:He; [|discriminate].
        now rewrite (IHt o eq_refl).
    + destruct (expand 0 tbl toks) as [o|] eqn:He; [|discriminate].
      now rewrite (IHt o eq_refl).
  - destruct t as [n| | |];
      try (destruct (expand (S fuel) tbl toks) as [o|] eqn:He; [|discriminate];
           now rewrite (IHt o eq_refl)).
    destruct (lookup n tbl) as [m|].
    + destruct (m_params m) as [ps|]; [|now apply IHf].
      destruct toks as [|t toks]; [assumption|].
      destruct (is_punct "(" t).
      * destruct (collect 0 toks) as [[inner r]|]; [|discriminate].
        destruct (invocation_args ps (m_variadic m) inner); [|discriminate].
        now apply IHf.
      * destruct (expand (S fuel) tbl (t :: toks)) as [o|] eqn:He;
          [|discriminate].
        now rewrite (IHt o eq_refl).
    + destruct (expand (S fuel) tbl toks) as [o|] eqn:He; [|discriminate].
      now rewrite (IHt o eq_refl).
Qed.

Lemma expand_mono_le (tbl : table) (f1 f2 : nat) (toks out : tokens) :
  (f1 <= f2)%nat ->
  expand f1 tbl toks = Some out -> expand f2 tbl toks = Some out.
Proof.
  induction 1 as [|f2 Hle IH]; [trivial|].
  intros H. now apply expand_mono, IH.
Qed.

(** A token list has at most one expansion. *)
Lemma expands_to_functional (tbl : table) (toks out1 out2 : tokens) :
  expands_to tbl toks out1 -> expands_to tbl toks out2 -> out1 = out2.
Proof.
  intros [f1 H1] [f2 H2].
  apply (expand_mono_le tbl f1 (Nat.max f1 f2)) in H1; [|apply Nat.le_max_l].
  apply (expand_mono_le tbl f2 (Nat.max f1 f2)) in H2; [|apply Nat.le_max_r].
  congruence.
Qed.

Lemma collect_arg (a : tokens) :
  forall d d' r,
    arg_depth d a = Some d' ->
    collect d (a ++ r) =
    match collect d' r with
    | Some (inner, rest) => Some (a ++ inner, rest)
    | None => None
    end.
Proof.
  induction a as [|t a IH]; intros d d' r H; simpl in *.
  - inversion H; subst. now destruct (collect d' r) as [[? ?]|].
  - destruct (is_punct ")" t).
    + destruct d as [|d0]; [discriminate|].
      rewrite (IH _ _ r H). now destruct (collect d' r) as [[? ?]|].
    + destruct (is_punct "," t && Nat.eqb d 0); [discriminate|].
      rewrite (IH _ _ r H). now destruct (collect d' r) as [[? ?]|].
Qed.

Lemma split_arg (a : tokens) :
  forall d d' r,
    arg_depth d a = Some d' ->
    split_args d (a ++ r) =
    match split_args d' r with
    | x :: xs => (a ++ x) :: xs
    | [] => [a]
    end.
Proof.
  induction a as [|t a IH]; intros d d' r H; simpl in *.
  - inversion H; subst. destruct (split_args d' r) eqn:Hs; [|reflexivity].
    now apply split_args_nonempty in Hs.
  - destruct (is_punct ")" t) eqn:Hc.
    + destruct d as [|d0]; [discriminate|].
      assert (t = rp) as ->.
      { destruct t; simpl in Hc; try discriminate.
        apply String.eqb_eq in Hc. now subst. }
      simpl. rewrite (IH _ _ r H). now destruct (split_args d' r).
    + destruct (is_punct "," t && Nat.eqb d 0); [discriminate|].
      destruct (is_punct "(" t);
        rewrite (IH _ _ r H); now destruct (split_args d' r).
Qed.

(** One simple argument closed by a parenthesis. *)
Lemma collect_simple (a r : tokens) :
  simple_arg a = true -> collect 0 (a ++ rp :: r) = Some (a, r).
Proof.
  unfold simple_arg. intros H.
  destruct (arg_depth 0 a) as [[|?]|] eqn:Hd; try discriminate.
  rewrite (collect_arg _ _ _ _ Hd). simpl. now rewrite app_nil_r.
Qed.

Lemma split_simple (a : tokens) :
  simple_arg a = true -> split_args 0 a = [a].
Proof.
  unfold simple_arg. intros H.
  destruct (arg_depth 0 a) as [[|?]|] eqn:Hd; try discriminate.
  rewrite <- (app_nil_r a) at 1. rewrite (split_arg _ _ _ _ Hd).
  simpl. now rewrite app_nil_r.
Qed.

Lemma expand_zero_invoked (tbl : table) (n : string) (rest : tokens) :
  invoked tbl n rest = true -> expand 0 tbl (TId n :: rest) = None.
Proof.
  unfold invoked. rewrite expand_unfold.
  destruct (lookup n tbl) as [m|]; [|discriminate].
  destruct (m_params m) as [ps|]; [|reflexivity].
  destruct rest as [|t rest]; [discriminate|].
  intros ->. destruct (collect 0 rest) as [[inner r]|]; [|reflexivity].
  now destruct (invocation_args ps (m_variadic m) inner).
Qed.

Lemma is_punct_eq (p : string) (t : token) :
  is_punct p t = true -> t = TP p.
Proof.
  destruct t; simpl; try discriminate.
  intros H. apply String.eqb_eq in H. now subst.
Qed.

Lemma alias_shape_inv (m : macro) (a : alias_shape) :
  alias_shape_of m = Some a ->
  match a with
  | AObj g => m = object_like [TId g]
  | AFun x g => m = function_like [x] [TId g; lp; TId x; rp] /\ x <> g
  | AVar g =>
      m = variadic [] [TId g; lp; TId "__VA_ARGS__"; rp] /\ "__VA_ARGS__" <> g
  end.
Proof.
  destruct m as [ps v body]. unfold alias_shape_of.
  cbn [m_params m_variadic m_body].
  destruct ps as [[|x [|? ?]]|], v; try discriminate;
    destruct body as [|[g| | |] [|t1 [|[x'| | |] [|t2 [|? ?]]]]];
    try discriminate.
  - destruct (is_punct "(" t1) eqn:H1; [|discriminate].
    destruct (is_punct ")" t2) eqn:H2; [|discriminate].
    destruct (String.eqb_spec "__VA_ARGS__" x'); [|discriminate].
    destruct (String.eqb_spec "__VA_ARGS__" g); [discriminate|].
    cbn [andb negb]. intros H; inversion H; subst.
    apply is_punct_eq in H1, H2. subst. now split.
  - destruct (is_punct "(" t1) eqn:H1; [|discriminate].
    destruct (is_punct ")" t2) eqn:H2; [|discriminate].
    destruct (String.eqb_spec x x'); [|discriminate].
    destruct (String.eqb_spec x g); [discriminate|].
    cbn [andb negb]. intros H; inversion H; subst.
    apply is_punct_eq in H1, H2. subst. now split.
  - intros H; inversion H; subst. reflexivity.
Qed.

(** An invocation with exactly one argument binds the whole group. *)
Lemma split_single (inner a : tokens) :
  split_args 0 inner = [a] -> a = inner.
Proof.
  intros H. rewrite <- (join_split inner 0), H. reflexivity.
Qed.

(** An object-like alias: one replacement step yields the modern name. *)
Lemma alias_object_step (tbl : table) (legacy g : string) (m : macro) :
  lookup legacy tbl = Some m ->
  alias_shape_of m = Some (AObj g) ->
  forall fuel rest,
    expand (S fuel) tbl (TId legacy :: rest) = expand fuel tbl (TId g :: rest).
Proof.
  intros Hl Hs fuel rest.
  pose proof (alias_shape_inv _ _ Hs) as Hi; cbn in Hi; subst m.
  rewrite (expand_unfold (S fuel)), Hl. reflexivity.
Qed.

(** A one-parameter alias: the argument is handed on unchanged. *)
Lemma alias_function_step (tbl : table) (legacy x g : string) (m m' : macro) :
  lookup legacy tbl = Some m ->
  alias_shape_of m = Some (AFun x g) ->
  lookup g tbl = Some m' ->
  (exists p, m_params m' = Some [p]) -> m_variadic m' = false ->
  forall fuel r,
    expand (S fuel) tbl (TId legacy :: lp :: r) =
    expand fuel tbl (TId g :: lp :: r).
Proof.
  intros Hl Hs Hg [p Hp] Hv fuel r.
  pose proof (alias_shape_inv _ _ Hs) as Hi; cbn in Hi.
  destruct Hi as [-> Hne].
  rewrite (expand_unfold (S fuel)), Hl.
  cbn [m_params m_variadic m_body function_like].
  replace (is_punct "(" lp) with true by reflexivity.
  destruct (collect 0 r) as [[inner rest]|] eqn:Hc.
  - unfold invocation_args.
    destruct (split_args 0 inner) as [|a [|b args]] eqn:Hsp.
    + now apply split_args_nonempty in Hsp.
    + apply split_single in Hsp. subst a. cbn [bind_args subst assoc].
      destruct (String.eqb_spec x g); [contradiction|].
      cbn [subst assoc lp rp]. rewrite String.eqb_refl.
      apply collect_sound in Hc. subst r.
      cbn [subst app lp rp]. now rewrite <- app_assoc.
    + rewrite (expand_unfold fuel), Hg, Hp, Hv.
      replace (is_punct "(" lp) with true by reflexivity.
      rewrite Hc. unfold invocation_args. rewrite Hsp. reflexivity.
  - rewrite (expand_unfold fuel), Hg, Hp.
    replace (is_punct "(" lp) with true by reflexivity.
    now rewrite Hc.
Qed.

(** The variadic alias: the whole argument group is handed on. *)
Lemma alias_variadic_step (tbl : table) (legacy g : string) (m m' : macro) :
  lookup legacy tbl = Some m ->
  alias_shape_of m = Some (AVar g) ->
  lookup g tbl = Some m' ->
  m_params m' = Some [] -> m_variadic m' = true ->
  forall fuel r,
    expand (S fuel) tbl (TId legacy :: lp :: r) =
    expand fuel tbl (TId g :: lp :: r).
Proof.
  intros Hl Hs Hg Hp Hv fuel r.
  pose proof (alias_shape_inv _ _ Hs) as Hi; cbn in Hi.
  destruct Hi as [-> Hne].
  rewrite (expand_unfold (S fuel)), Hl.
  cbn [m_params m_variadic m_body variadic].
  replace (is_punct "(" lp) with true by reflexivity.
  destruct (collect 0 r) as [[inner rest]|] eqn:Hc.
  - unfold invocation_args.
    pose proof (join_split inner 0) as Hj.
    destruct (split_args 0 inner) as [|a args] eqn:Hsp.
    + now apply split_args_nonempty in Hsp.
    + cbn [bind_args]. rewrite Hj. cbn [subst assoc].
      destruct (String.eqb_spec "__VA_ARGS__" g); [contradiction|].
      cbn [subst assoc lp rp]. rewrite String.eqb_refl.
      apply collect_sound in Hc. subst r.
      cbn [subst app lp rp]. now rewrite <- app_assoc.
  - rewrite (expand_unfold fuel), Hg, Hp.
    replace (is_punct "(" lp) with true by reflexivity.
    now rewrite Hc.
Qed.



(** The header reads only five facts about the toolchain. *)
Lemma preprocess_features (tc : toolchain) :
  preprocess tc = preprocess (features_of tc).
Proof.
  destruct tc as [h g c].
  unfold features_of, supports, canonical, preprocess, compiler_hh; cbn.
  unfold holds; cbn.
  destruct (h "fallthrough" =? 0), (h "nodiscard" =? 0),
    (h "maybe_unused" =? 0), c, g as [v|]; cbn;
    try destruct (6 <=? v); reflexivity.
Qed.



Lemma preprocess_gnu (tc : toolchain) (v : Z) :
  gnuc tc = Some v ->
  preprocess tc =
  Ok (gnu_table (supports tc "fallthrough") (supports tc "nodiscard")
        (supports tc "maybe_unused") (6 <=? v) (clang tc)).
Proof.
  intros H. rewrite preprocess_features. unfold features_of. rewrite H.
  cbn [option_map]. unfold gnu_table.
  destruct (supports tc "fallthrough"), (supports tc "nodiscard"),
    (supports tc "maybe_unused"), (6 <=? v), (clang tc); reflexivity.
Qed.

Lemma table_of_ok (tc : toolchain) (tbl : table) :
  preprocess tc = Ok tbl -> tbl = table_of tc.
Proof. unfold table_of. now intros ->. Qed.

Lemma preprocess_other (tc : toolchain) :
  gnuc tc = None -> preprocess tc = Failed dont_know.
Proof.
  intros H. rewrite preprocess_features. unfold features_of. rewrite H.
  cbn [option_map].
  destruct (supports tc "fallthrough"), (supports tc "nodiscard"),
    (supports tc "maybe_unused"), (clang tc); reflexivity.
Qed.

Lemma gnu_table_core (ft nd mu enum_ok cl : bool) :
  core (gnu_table ft nd mu enum_ok cl).
Proof.
  destruct ft, nd, mu, enum_ok, cl; split;
    solve [ reflexivity | repeat constructor ].
Qed.

Lemma lookup_none (tbl : table) (n : string) :
  existsb (String.eqb n) (names tbl) = false -> lookup n tbl = None.
Proof.
  induction tbl as [|[k m] tbl IH]; cbn; [reflexivity|].
  rewrite (String.eqb_sym n k).
  destruct (String.eqb k n); cbn; [discriminate|assumption].
Qed.

Lemma core_lookup (tbl : table) (n : string) (m : macro) :
  core tbl -> In (n, m) fixed_macros -> lookup n tbl = Some m.
Proof.
  intros [_ H] Hin. rewrite Forall_forall in H. exact (H _ Hin).
Qed.

(** An identifier the header does not define is not a macro. *)
Lemma core_plain (tbl : table) (n : string) :
  core tbl ->
  existsb (String.eqb n) header_names = false -> is_macro tbl (TId n) = false.
Proof.
  intros [Hn _] H. cbn. rewrite lookup_none; [reflexivity|]. now rewrite Hn.
Qed.

Lemma macro_free_app (tbl : table) (a b : tokens) :
  macro_free tbl (a ++ b) = macro_free tbl a && macro_free tbl b.
Proof. apply forallb_app. Qed.

Lemma macro_free_cons (tbl : table) (t : token) (r : tokens) :
  macro_free tbl (t :: r) = negb (is_macro tbl t) && macro_free tbl r.
Proof. reflexivity. Qed.

Lemma macro_free_nil (tbl : table) : macro_free tbl [] = true.
Proof. reflexivity. Qed.

(** Decides [macro_free] for a replacement list whose identifiers the
    header does not define, given [core] for the table and [macro_free]
    hypotheses for the arguments. *)
Ltac plain_tokens Hc :=
  repeat first [ rewrite macro_free_cons | rewrite macro_free_app
               | rewrite macro_free_nil ];
  rewrite ?(core_plain _ _ Hc) by reflexivity;
  repeat match goal with
         | H : macro_free _ _ = true |- _ => rewrite H
         | H : lookup _ _ = None |- _ => cbn [is_macro]; rewrite H
         end;
  reflexivity.

Lemma collect_join (args : list tokens) (rest : tokens) :
  forallb simple_arg args = true ->
  collect 0 (join_args args ++ rp :: rest) = Some (join_args args, rest).
Proof.
  induction args as [|a args IH]; intros H.
  - reflexivity.
  - cbn [forallb] in H. apply andb_true_iff in H as [Ha Hargs].
    destruct args as [|b args].
    + cbn [join_args]. now apply collect_simple.
    + change (join_args (a :: b :: args))
        with (a ++ comma :: join_args (b :: args)).
      rewrite <- app_assoc. cbn [app].
      unfold simple_arg in Ha.
      destruct (arg_depth 0 a) as [[|?]|] eqn:Hd; try discriminate.
      rewrite (collect_arg _ _ _ _ Hd).
      change (collect 0 (comma :: join_args (b :: args) ++ rp :: rest))
        with (match collect 0 (join_args (b :: args) ++ rp :: rest) with
              | Some (inner, rest') => Some (comma :: inner, rest')
              | None => None
              end).
      now rewrite (IH Hargs).
Qed.

Lemma split_join (args : list tokens) :
  args <> [] ->
  forallb simple_arg args = true ->
  split_args 0 (join_args args) = args.
Proof.
  induction args as [|a args IH]; intros Hne H; [contradiction|].
  cbn [forallb] in H. apply andb_true_iff in H as [Ha Hargs].
  destruct args as [|b args].
  - cbn [join_args]. now apply split_simple.
  - change (join_args (a :: b :: args))
      with (a ++ comma :: join_args (b :: args)).
    unfold simple_arg in Ha.
    destruct (arg_depth 0 a) as [[|?]|] eqn:Hd; try discriminate.
    rewrite (split_arg _ _ _ _ Hd).
    change (split_args 0 (comma :: join_args (b :: args)))
      with ([] :: split_args 0 (join_args (b :: args))).
    rewrite IH by (assumption || discriminate).
    now rewrite app_nil_r.
Qed.

(** One replacement step of a function-like macro invoked with simple
    arguments. *)
Lemma expand_call (fuel : nat) (tbl : table) (n : string) (m : macro)
    (ps : list string) (args : list tokens) (env : list (string * tokens))
    (rest : tokens) :
  lookup n tbl = Some m ->
  m_params m = Some ps ->
  args <> [] ->
  forallb simple_arg args = true ->
  bind_args ps (m_variadic m) args = Some env ->
  expand (S fuel) tbl (call n args ++ rest) =
  expand fuel tbl (subst env (m_body m) ++ rest).
Proof.
  intros Hl Hp Hne Hs Hb.
  unfold call. cbn [app]. rewrite <- app_assoc. cbn [app].
  rewrite expand_unfold, Hl, Hp.
  replace (is_punct "(" lp) with true by reflexivity.
  rewrite (collect_join _ _ Hs).
  assert (invocation_args ps (m_variadic m) (join_args args) = Some env) as ->.
  { unfold invocation_args. rewrite (split_join _ Hne Hs).
    destruct ps as [|p ps]; [|assumption].
    destruct (m_variadic m); [assumption|].
    destruct args; [contradiction|discriminate]. }
  reflexivity.
Qed.

Lemma expand_plain_cons (fuel : nat) (tbl : table) (t : token) (rest : tokens) :
  is_macro tbl t = false ->
  expand fuel tbl (t :: rest) = keep t (expand fuel tbl rest).
Proof.
  intros H. rewrite expand_unfold.
  destruct t as [n| | |]; try reflexivity.
  cbn in H. now destruct (lookup n tbl).
Qed.

Lemma expand_nil (fuel : nat) (tbl : table) : expand fuel tbl [] = Some [].
Proof. now rewrite expand_unfold. Qed.

(** Side condition of [expand_plain_cons]. *)
Ltac not_macro Hc :=
  solve [ reflexivity
        | apply (core_plain _ _ Hc); reflexivity
        | cbn [is_macro];
          match goal with
          | H : lookup _ _ = None |- _ => rewrite H; reflexivity
          end ].

(** Moves the scan over the tokens that are not macro names. *)
Ltac scan_plain Hc :=
  repeat first [ rewrite expand_plain_cons by not_macro Hc
               | rewrite expand_plain_app by assumption
               | rewrite expand_nil ].

(* ================================================================= *)
(** ** Facts about brackets and the statement reader *)

Lemma closing_stop (t : token) :
  Syntax.closing t = false -> is_punct ")" t = false.
Proof.
  unfold Syntax.closing. destruct (is_punct ")" t); [discriminate|reflexivity].
Qed.

(** A sequence whose brackets match is what stands before the closing
    parenthesis that follows it. *)
Lemma span_matched (arg rest : tokens) :
  forall stack,
    Syntax.matched stack arg = true ->
    Syntax.span ")" false stack (arg ++ rp :: rest) = Some (arg, rest).
Proof.
  induction arg as [|t arg IH]; intros stack H.
  - destruct stack; [reflexivity|discriminate].
  - cbn [app Syntax.span Syntax.matched] in *.
    destruct stack as [|c stack'].
    + destruct (Syntax.closing t) eqn:Hc; [discriminate|].
      rewrite (closing_stop _ Hc). cbn [andb]. now rewrite (IH _ H).
    + destruct (is_punct c t); [now rewrite (IH _ H)|].
      destruct (Syntax.closing t); [discriminate|]. now rewrite (IH _ H).
Qed.

Lemma span_balanced (arg rest : tokens) :
  Syntax.balanced arg = true ->
  Syntax.span ")" false [] (arg ++ rp :: rest) = Some (arg, rest).
Proof. apply span_matched. Qed.

Lemma parse_statement_nil (fuel : nat) : Syntax.parse_statement fuel [] = None.
Proof. now destruct fuel. Qed.

Lemma parse_statement_compound (fuel : nat) (rest : tokens) :
  Syntax.parse_statement (S fuel) (lc :: rest) = Syntax.parse_block fuel rest.
Proof. reflexivity. Qed.

Lemma parse_statement_do (fuel : nat) (rest : tokens) :
  Syntax.parse_statement (S fuel) (TId "do" :: rest) =
  match Syntax.parse_statement fuel rest with
  | Some (w :: rest1) =>
      if Syntax.is_id "while" w then
        match Syntax.condition rest1 with
        | Some (s :: rest2) => if is_punct ";" s then Some rest2 else None
        | _ => None
        end
      else None
  | _ => None
  end.
Proof. reflexivity. Qed.

Lemma parse_statement_if (fuel : nat) (rest : tokens) :
  Syntax.parse_statement (S fuel) (TId "if" :: rest) =
  match Syntax.condition rest with
  | Some rest1 =>
      match Syntax.parse_statement fuel rest1 with
      | Some (e :: rest2) =>
          if Syntax.is_id "else" e then Syntax.parse_statement fuel rest2
          else Some (e :: rest2)
      | other => other
      end
  | None => None
  end.
Proof. reflexivity. Qed.

(** A statement that begins with an opening parenthesis is an expression
    statement. *)
Lemma parse_statement_paren (fuel : nat) (rest : tokens) :
  Syntax.parse_statement (S fuel) (lp :: rest) =
  option_map snd (Syntax.span ";" true [] (lp :: rest)).
Proof. reflexivity. Qed.

(** No statement begins with a closing brace. *)
Lemma parse_statement_closing (fuel : nat) (t : token) (rest : tokens) :
  is_punct "}" t = true -> Syntax.parse_statement fuel (t :: rest) = None.
Proof.
  intros H. apply is_punct_eq in H. subst t. now destruct fuel.
Qed.

Lemma parse_block_close (fuel : nat) (rest : tokens) :
  Syntax.parse_block (S fuel) (rc :: rest) = Some rest.
Proof. reflexivity. Qed.

Lemma parse_block_step (fuel : nat) (t : token) (rest : tokens) :
  is_punct "}" t = false ->
  Syntax.parse_block (S fuel) (t :: rest) =
  match Syntax.parse_statement fuel (t :: rest) with
  | Some rest' => Syntax.parse_block fuel rest'
  | None => None
  end.
Proof. intros H. cbn [Syntax.parse_block]. now rewrite H. Qed.

(** A statement needs fuel. *)
Lemma statement_before_positive (n : nat) (toks : tokens) :
  Syntax.statement_before n toks -> (1 <= n)%nat.
Proof.
  intros H. destruct n as [|n]; [|lia].
  specialize (H 0%nat [] (le_n 0) eq_refl). discriminate.
Qed.

(** Inside a block, a statement is read and the block goes on after it. *)
Lemma parse_block_statement (n fuel : nat) (toks r : tokens) :
  Syntax.statement_before n toks ->
  (n <= fuel)%nat ->
  Syntax.starts_with_else r = false ->
  Syntax.parse_block (S fuel) (toks ++ r) = Syntax.parse_block fuel r.
Proof.
  intros H Hle He. specialize (H fuel r Hle He).
  destruct (toks ++ r) as [|t rest] eqn:Ht.
  - now rewrite parse_statement_nil in H.
  - destruct (is_punct "}" t) eqn:Hc.
    + now rewrite parse_statement_closing in H.
    + rewrite (parse_block_step _ _ _ Hc). now rewrite H.
Qed.

(** The tokens [GEM5_DEPRECATED_MACRO(name, {}, message)] stands for are
    the expression of an expression statement. *)
Lemma deprecated_macro_expr_span (name message : string) (rest : tokens) :
  Syntax.span ";" true []
    (deprecated_macro_expr name [lc; rc] message ++ semi :: rest)
  = Some (deprecated_macro_expr name [lc; rc] message, rest).
Proof. reflexivity. Qed.

(** The expansion of [GEM5_DEPRECATED_MACRO_STMT] with the semicolon
    written after it is one statement, whatever follows it. *)
Lemma deprecated_macro_stmt_closed (n : nat) (name : string)
    (definition : tokens) (message : string) :
  Syntax.statement_before n (definition ++ [semi]) ->
  Syntax.closed_statement (n + 5)
    (deprecated_macro_stmt name definition message ++ [semi]).
Proof.
  intros Hd fuel r Hle.
  pose proof (statement_before_positive _ _ Hd) as Hn.
  destruct fuel as [|[|[|[|[|[|fuel]]]]]]; try lia.
  assert (n <= S fuel)%nat as Hf by lia.
  replace ((deprecated_macro_stmt name definition message ++ [semi]) ++ r)
    with (TId "do" :: lc :: lc :: (definition ++ [semi])
            ++ rc :: deprecated_macro_expr name [lc; rc] message
            ++ semi :: rc :: TId "while" :: lp :: TNum 0 :: rp :: semi :: r).
  2:{ unfold deprecated_macro_stmt. cbn [app].
      rewrite <- !app_assoc. cbn [app]. rewrite <- !app_assoc. reflexivity. }
  rewrite parse_statement_do, parse_statement_compound.
  rewrite (parse_block_step _ lc) by reflexivity.
  rewrite parse_statement_compound.
  rewrite (parse_block_statement n) by (assumption || lia || reflexivity).
  rewrite parse_block_close.
  change (deprecated_macro_expr name [lc; rc] message ++ ?x)
    with (lp :: tl (deprecated_macro_expr name [lc; rc] message) ++ x).
  rewrite (parse_block_step _ lp) by reflexivity.
  rewrite parse_statement_paren.
  change (lp :: tl (deprecated_macro_expr name [lc; rc] message) ++ ?x)
    with (deprecated_macro_expr name [lc; rc] message ++ x).
  rewrite deprecated_macro_expr_span.
  reflexivity.
Qed.

Lemma condition_ok (c rest : tokens) :
  Syntax.condition_tokens c ->
  Syntax.condition (lp :: c ++ rp :: rest) = Some rest.
Proof.
  intros [Hne Hc]. unfold Syntax.condition.
  replace (is_punct "(" lp) with true by reflexivity. cbv iota.
  fold rp in Hc. rewrite Hc. destruct c; [contradiction|reflexivity].
Qed.

(** [if (c) s1 else s2] is one statement when [s1] is one whatever
    follows it, the [else] included. *)
Lemma if_else_closed (n m : nat) (c first other : tokens) :
  Syntax.condition_tokens c ->
  Syntax.closed_statement n first ->
  Syntax.closed_statement m other ->
  Syntax.closed_statement (S (Nat.max n m))
    (TId "if" :: lp :: c ++ rp :: first ++ TId "else" :: other).
Proof.
  intros Hc H1 H2 fuel r Hle. destruct fuel as [|fuel]; [lia|].
  replace ((TId "if" :: lp :: c ++ rp :: first ++ TId "else" :: other) ++ r)
    with (TId "if" :: lp :: c ++ rp :: first ++ TId "else" :: other ++ r)
    by (cbn [app]; repeat (rewrite <- app_assoc; cbn [app]); reflexivity).
  rewrite parse_statement_if, (condition_ok _ _ Hc).
  rewrite (H1 fuel (TId "else" :: other ++ r)) by lia.
  replace (Syntax.is_id "else" (TId "else")) with true by reflexivity.
  apply H2. lia.
Qed.

(* ================================================================= *)
(** ** Run-time behaviour of the expression and statement macros *)

Section RuntimeFacts.

Context {state : Type}.

Lemma bind_ret_l {A B : Type} (a : A) (k : A -> Sem.M state B) (s : state) :
  Sem.bind (Sem.ret a) k s = k a s.
Proof. reflexivity. Qed.

(** Double negation leaves the truth value. *)
Lemma lnot_lnot (cond : Sem.expr state) (s : state) :
  Sem.lnot (Sem.lnot cond) s = Sem.truth_value cond s.
Proof.
  unfold Sem.lnot, Sem.truth_value, Sem.bind.
  destruct (cond s) as [[[z| |body] s']|]; try reflexivity.
  cbn. now destruct (z =? 0).
Qed.

(** A lambda expression as left operand of a comma: the right operand is
    evaluated, and unless it has type [void] the operator is looked up for
    the closure and its value. *)
Lemma comma_lambda (user_comma : Sem.comma_operators state)
    (body : Sem.stmt state) (e : Sem.expr state) (s : state) :
  Sem.comma_op user_comma (Sem.lambda body) e s =
  match e s with
  | Some (v, s') =>
      if Sem.is_void v then Some (v, s')
      else match user_comma (Sem.VClosure body) v with
           | Some call => call s'
           | None => Some (v, s')
           end
  | None => None
  end.
Proof.
  unfold Sem.comma_op, Sem.lambda, Sem.bind, Sem.ret.
  destruct (e s) as [[[z| |b] s']|]; cbn; try reflexivity;
    now destruct (user_comma _ _).
Qed.

(** With an operand of type [void] the comma is the built-in one. *)
Lemma comma_void_l (user_comma : Sem.comma_operators state)
    (a b : Sem.expr state) (s : state) :
  Sem.comma_op user_comma (Sem.cast_void a) b s
  = Sem.builtin_comma (Sem.cast_void a) b s.
Proof.
  unfold Sem.builtin_comma, Sem.comma_op, Sem.cast_void, Sem.bind, Sem.ret.
  destruct (a s) as [[v s']|]; [|reflexivity].
  cbn. destruct (b s') as [[w s2]|]; [|reflexivity].
  now rewrite andb_false_r.
Qed.

(** Where no declared [operator,] is viable the comma is the built-in
    one. *)
Lemma comma_builtin (user_comma : Sem.comma_operators state)
    (a b : Sem.expr state) (s : state) :
  (forall x y, user_comma x y = None) ->
  Sem.comma_op user_comma a b s = Sem.builtin_comma a b s.
Proof.
  intros H. unfold Sem.builtin_comma, Sem.comma_op, Sem.bind, Sem.ret.
  destruct (a s) as [[x s']|]; [|reflexivity].
  destruct (b s') as [[y s2]|]; [|reflexivity].
  rewrite H. now destruct (_ && _ && _).
Qed.

(** A loop whose condition is the literal 0 runs its body once. *)
Lemma do_while_zero (fuel : nat) (body : Sem.stmt state) (s : state) :
  Sem.do_while (S fuel) body (Sem.lit 0) s = Sem.once body s.
Proof.
  cbn [Sem.do_while]. unfold Sem.once, Sem.bind.
  destruct (body s) as [[[| | |v] s']|]; reflexivity.
Qed.

Lemma init_list_pack (user_comma : Sem.comma_operators state)
    (pack : list (Sem.expr state)) (s : state) :
  Sem.init_list (Sem.pack_initializer user_comma pack) s =
  match Sem.in_order pack s with
  | Some (_, s') =>
      Some (Sem.VInt 0 :: repeat (Sem.VInt 0) (length pack), s')
  | None => None
  end.
Proof.
  unfold Sem.pack_initializer. cbn [Sem.init_list].
  unfold Sem.lit at 1. rewrite bind_ret_l.
  assert (forall s,
            Sem.init_list
              (map (fun va_args : Sem.expr state =>
                      Sem.paren (Sem.comma_op user_comma
                                   (Sem.cast_void (Sem.paren va_args))
                                   (Sem.lit 0))) pack) s =
            match Sem.in_order pack s with
            | Some (_, s') => Some (repeat (Sem.VInt 0) (length pack), s')
            | None => None
            end) as H.
  { induction pack as [|e pack IH]; intros s0; [reflexivity|].
    cbn [map Sem.init_list Sem.in_order length repeat].
    unfold Sem.bind at 1 3. unfold Sem.paren at 1.
    rewrite comma_void_l.
    unfold Sem.builtin_comma, Sem.paren, Sem.cast_void, Sem.bind at 1 2.
    destruct (e s0) as [[v s1]|]; [|reflexivity].
    cbn. unfold Sem.bind. rewrite IH.
    now destruct (Sem.in_order pack s1) as [[u s2]|]. }
  unfold Sem.bind. rewrite H.
  now destruct (Sem.in_order pack s) as [[u s']|].
Qed.

End RuntimeFacts.

(** C1. [GEM5_LIKELY(c)] and [GEM5_UNLIKELY(c)] evaluate [c] once and yield
    its boolean value: as computations they equal "evaluate [c], convert
    to bool"; a condition with any side effect [f] that yields [true]
    gives [true] and one that yields [false] gives [false], with [f]
    applied once. *)
Theorem C1_branch_hints_return_condition :
  forall (state : Type) (cond : Sem.expr state) (s : state),
    Sem.GEM5_LIKELY cond s = Sem.truth_value cond s /\
    Sem.GEM5_UNLIKELY cond s = Sem.truth_value cond s /\
    (forall (f : state -> state) (b : bool),
        let c : Sem.expr state := fun s0 => Some (Sem.VInt (Z.b2z b), f s0) in
        Sem.GEM5_LIKELY c s = Some (Sem.VInt (Z.b2z b), f s) /\
        Sem.GEM5_UNLIKELY c s = Some (Sem.VInt (Z.b2z b), f s)).
Proof.
  intros state cond s.
  assert (forall (c : Sem.expr state) k s0,
             Sem.builtin_expect (Sem.lnot (Sem.lnot (Sem.paren c))) (Sem.lit k) s0
             = Sem.truth_value c s0) as H.
  { intros c k s0. unfold Sem.builtin_expect, Sem.paren.
    unfold Sem.bind at 1. rewrite lnot_lnot.
    unfold Sem.truth_value, Sem.bind.
    destruct (c s0) as [[[z| |body] s1]|]; reflexivity. }
  split; [apply H|]. split; [apply H|].
  intros f b c.
  unfold Sem.GEM5_LIKELY, Sem.GEM5_UNLIKELY. rewrite !H.
  subst c. cbn. now destruct b.
Qed.

(** C6 (code bug).  [GEM5_DEPRECATED_MACRO(n, e, message)] is
    [([](){...}, (e))], a comma whose left operand is a closure, so the
    operator is chosen by overload resolution.  In a translation unit that
    declares [template <class L> int operator,(L, int)] the wrapper of an
    expression with value 42 calls that operator: it yields 1042 and has
    the operator's effect besides that of [e].  In general the wrapper
    evaluates [e] once and hands the closure and the value of [e] to the
    operator that is selected; it is [e] itself exactly where no declared
    operator is viable.  The lambda's own body never runs on the way.
    [GEM5_FOR_EACH_IN_PACK] casts the left operand to [void], and no
    declaration reaches its comma. *)
Theorem C6_user_comma_reaches_the_wrapper :
  Sem.GEM5_DEPRECATED_MACRO Sem.logging_comma "OLD"
    (Sem.Expression (Sem.action "e" 42)) "use NEW" []
  = Some (Sem.VInt 1042, ["e"; "operator,"]) /\
  Sem.action "e" 42 [] = Some (Sem.VInt 42, ["e"]) /\
  (forall (state : Type)
          (user_comma : Sem.comma_operators state)
          (name message : string) (definition : Sem.expr state) (s : state),
      Sem.GEM5_DEPRECATED_MACRO user_comma name (Sem.Expression definition)
        message s
      = match definition s with
        | Some (v, s') =>
            if Sem.is_void v then Some (v, s')
            else match user_comma
                         (Sem.VClosure (Sem.deprecated_variable name message))
                         v with
                 | Some call => call s'
                 | None => Some (v, s')
                 end
        | None => None
        end) /\
  (forall (state : Type)
          (user_comma : Sem.comma_operators state)
          (name message : string) (definition : Sem.expr state) (s : state),
      (forall x y, user_comma x y = None) ->
      Sem.GEM5_DEPRECATED_MACRO user_comma name (Sem.Expression definition)
        message s
      = definition s) /\
  (forall (var_used : tokens) (fuel : nat) (pack : list (Sem.expr Sem.log))
          (s : Sem.log),
      Sem.GEM5_FOR_EACH_IN_PACK Sem.logging_comma var_used fuel pack s
      = Sem.GEM5_FOR_EACH_IN_PACK Sem.no_user_comma var_used fuel pack s).
Proof.
  split; [reflexivity|]. split; [reflexivity|]. split; [|split].
  - intros state user_comma name message definition s.
    unfold Sem.GEM5_DEPRECATED_MACRO, Sem.paren_operand, Sem.paren.
    apply comma_lambda.
  - intros state user_comma name message definition s H.
    unfold Sem.GEM5_DEPRECATED_MACRO, Sem.paren_operand, Sem.paren.
    rewrite comma_lambda.
    destruct (definition s) as [[v s']|]; [|reflexivity].
    rewrite H. now destruct (Sem.is_void v).
  - intros var_used fuel pack s.
    destruct fuel as [|fuel]; [reflexivity|].
    unfold Sem.GEM5_FOR_EACH_IN_PACK. rewrite !do_while_zero.
    unfold Sem.once, Sem.block, Sem.decl. cbn [fold_right].
    unfold Sem.seq, Sem.bind. now rewrite !init_list_pack.
Qed.

(** C8. [GEM5_FOR_EACH_IN_PACK(e1..ek)] runs [e1], then [e2], ..., then
    [ek], each once, and ends normally with nothing left of their values. *)
Theorem C8_for_each_in_pack_in_order :
  forall (state : Type)
         (user_comma : Sem.comma_operators state)
         (var_used : tokens) (fuel : nat)
         (pack : list (Sem.expr state)) (s : state),
    Sem.GEM5_FOR_EACH_IN_PACK user_comma var_used (S fuel) pack s =
    match Sem.in_order pack s with
    | Some (_, s') => Some (Sem.ONormal, s')
    | None => None
    end.
Proof.
  intros state user_comma var_used fuel pack s.
  unfold Sem.GEM5_FOR_EACH_IN_PACK. rewrite do_while_zero.
  unfold Sem.once, Sem.block, Sem.decl. cbn [fold_right].
  unfold Sem.seq, Sem.bind. rewrite init_list_pack.
  now destruct (Sem.in_order pack s) as [[u s']|].
Qed.

(** C10. With an empty pack the initializer is the single element 0, the
    array has one element, and the statement does nothing; in general the
    array has one element more than the pack. *)
Theorem C10_for_each_in_empty_pack :
  forall (state : Type)
         (user_comma : Sem.comma_operators state)
         (var_used : tokens) (fuel : nat) (s : state),
    Sem.pack_initializer user_comma [] = [Sem.lit 0] /\
    Sem.init_list (Sem.pack_initializer user_comma []) s
    = Some ([Sem.VInt 0], s) /\
    Sem.GEM5_FOR_EACH_IN_PACK user_comma var_used (S fuel) [] s
    = Some (Sem.ONormal, s) /\
    (forall pack : list (Sem.expr state),
        length (Sem.pack_initializer user_comma pack) = S (length pack)).
Proof.
  intros. repeat split.
  intros pack. unfold Sem.pack_initializer. cbn. now rewrite length_map.
Qed.

(* ================================================================= *)
(** ** What the header gives each toolchain *)

Lemma lookup_enum_val (ft nd mu enum_ok cl : bool) :
  lookup "GEM5_DEPRECATED_ENUM_VAL" (gnu_table ft nd mu enum_ok cl)
  = Some (GEM5_DEPRECATED_ENUM_VAL (cl || enum_ok)).
Proof. destruct ft, nd, mu, enum_ok, cl; reflexivity. Qed.

(** The deprecation marker applied to a simple argument. *)
Lemma expand_deprecated (tbl : table) (message : tokens) :
  core tbl ->
  simple_arg message = true ->
  macro_free tbl message = true ->
  expand 1 tbl (call "GEM5_DEPRECATED" [message])
  = Some (deprecated_attribute message).
Proof.
  intros Hc Hs Hm.
  rewrite <- (app_nil_r (call _ _)).
  rewrite (expand_call 0 tbl "GEM5_DEPRECATED" GEM5_DEPRECATED ["message"]
             [message] [("message", message)]);
    try reflexivity; try discriminate.
  - rewrite app_nil_r. apply expand_plain.
    unfold deprecated_attribute. cbn [subst assoc m_body GEM5_DEPRECATED
      function_like lb rb lp rp String.eqb Ascii.eqb Bool.eqb].
    plain_tokens Hc.
  - apply (core_lookup _ _ _ Hc). cbn. tauto.
  - cbn. now rewrite Hs.
Qed.

(** C5. On a toolchain that does not predefine [__GNUC__] (neither gcc
    nor clang), preprocessing the header stops at an [#error] whose
    message is the text of lines 80 and 151. *)
Theorem C5_unknown_compiler_stops_the_build :
  forall tc : toolchain,
    gnuc tc = None ->
    preprocess tc = Failed "Don't know what to do for your compiler.".
Proof. intros tc H. now rewrite preprocess_other. Qed.

Lemma C5_unknown_compiler_stops_the_build_witness :
  gnuc other_cxx17 = None /\
  preprocess other_cxx17 = Failed "Don't know what to do for your compiler.".
Proof.
  split; [reflexivity|].
  apply (C5_unknown_compiler_stops_the_build other_cxx17). reflexivity.
Defined.

(** C9. On gcc and clang, when [__clang__] is defined or [__GNUC__ >= 6],
    [GEM5_DEPRECATED_ENUM_VAL(message)] is replaced by
    [GEM5_DEPRECATED(message)] and so expands to the deprecated marker with
    the same message; on GCC before 6 it expands to nothing. *)
Theorem C9_enum_value_marker_is_version_gated :
  forall (tc : toolchain) (v : Z) (message : tokens),
    gnuc tc = Some v ->
    simple_arg message = true ->
    exists tbl,
      preprocess tc = Ok tbl /\
      (clang tc = true \/ 6 <= v ->
       lookup "GEM5_DEPRECATED_ENUM_VAL" tbl
         = Some (function_like ["message"]
                   (call "GEM5_DEPRECATED" [[TId "message"]])) /\
       (forall fuel,
           expand (S fuel) tbl (call "GEM5_DEPRECATED_ENUM_VAL" [message])
           = expand fuel tbl (call "GEM5_DEPRECATED" [message])) /\
       (macro_free tbl message = true ->
        expand 2 tbl (call "GEM5_DEPRECATED_ENUM_VAL" [message])
          = Some (deprecated_attribute message) /\
        expand 1 tbl (call "GEM5_DEPRECATED" [message])
          = Some (deprecated_attribute message))) /\
      (clang tc = false /\ v < 6 ->
       expand 1 tbl (call "GEM5_DEPRECATED_ENUM_VAL" [message]) = Some []).
Proof.
  intros tc v message Hg Hs.
  eexists. split; [apply (preprocess_gnu tc v Hg)|].
  set (tbl := gnu_table _ _ _ _ _).
  assert (core tbl) as Hc by apply gnu_table_core.
  assert (lookup "GEM5_DEPRECATED_ENUM_VAL" tbl
          = Some (GEM5_DEPRECATED_ENUM_VAL (clang tc || (6 <=? v)))) as Hl
      by apply lookup_enum_val.
  split.
  - intros Hor.
    assert (clang tc || (6 <=? v) = true) as Hb.
    { destruct Hor as [-> | Hv]; [reflexivity|].
      apply orb_true_iff. right. now apply Z.leb_le. }
    rewrite Hb in Hl.
    assert (forall fuel,
               expand (S fuel) tbl (call "GEM5_DEPRECATED_ENUM_VAL" [message])
               = expand fuel tbl (call "GEM5_DEPRECATED" [message])) as Hstep.
    { intros fuel. rewrite <- (app_nil_r (call "GEM5_DEPRECATED_ENUM_VAL" _)).
      rewrite (expand_call fuel tbl _ _ ["message"] [message]
                 [("message", message)] [] Hl);
        try reflexivity; try discriminate.
      - now rewrite app_nil_r.
      - cbn. now rewrite Hs. }
    split; [exact Hl|]. split; [exact Hstep|].
    intros Hm. rewrite Hstep. split; now apply expand_deprecated.
  - intros [Hcl Hv].
    assert (clang tc || (6 <=? v) = false) as Hb.
    { rewrite Hcl. cbn. apply Z.leb_gt. exact Hv. }
    rewrite Hb in Hl.
    rewrite <- (app_nil_r (call "GEM5_DEPRECATED_ENUM_VAL" _)).
    rewrite (expand_call 0 tbl _ _ ["message"] [message]
               [("message", message)] [] Hl);
      try reflexivity; try discriminate.
    cbn. now rewrite Hs.
Qed.

Lemma C9_enum_value_marker_is_version_gated_witness :
  (gnuc gcc9_cxx17 = Some 9 /\
   simple_arg [TStr "use NewValue"] = true /\
   expand 2 (table_of gcc9_cxx17)
     (call "GEM5_DEPRECATED_ENUM_VAL" [[TStr "use NewValue"]])
   = Some [TP "["; TP "["; TId "gnu"; TP "::"; TId "deprecated";
           TP "("; TStr "use NewValue"; TP ")"; TP "]"; TP "]"]) /\
  (gnuc gcc5_cxx14 = Some 5 /\
   expand 1 (table_of gcc5_cxx14)
     (call "GEM5_DEPRECATED_ENUM_VAL" [[TStr "use NewValue"]])
   = Some []).
Proof.
  split.
  - split; [reflexivity|]. split; [reflexivity|].
    destruct (C9_enum_value_marker_is_version_gated gcc9_cxx17 9
                [TStr "use NewValue"] eq_refl eq_refl)
      as [tbl [Hp [H _]]].
    apply table_of_ok in Hp. subst tbl.
    destruct H as [_ [_ H]]; [right; lia|].
    destruct H as [H _]; [reflexivity|]. exact H.
  - split; [reflexivity|].
    destruct (C9_enum_value_marker_is_version_gated gcc5_cxx14 5
                [TStr "use NewValue"] eq_refl eq_refl)
      as [tbl [Hp [_ H]]].
    apply table_of_ok in Hp. subst tbl.
    apply H. split; [reflexivity|lia].
Defined.

(** C3. On every gcc or clang toolchain [GEM5_LOCAL] and [GEM5_WEAK] expand
    to attributes of the form [[[gnu::...]]], but [GEM5_PUBLIC] expands to
    [[[gnu:visibility("default")]]], with a single colon, which is no
    attribute specifier at all. *)
Theorem C3_public_marker_is_malformed :
  forall (tc : toolchain) (v : Z),
    gnuc tc = Some v ->
    exists tbl,
      preprocess tc = Ok tbl /\
      expand 1 tbl [TId "GEM5_PUBLIC"]
        = Some [TP "["; TP "["; TId "gnu"; TP ":"; TId "visibility";
                TP "("; TStr "default"; TP ")"; TP "]"; TP "]"] /\
      Syntax.attribute_specifier
        [TP "["; TP "["; TId "gnu"; TP ":"; TId "visibility";
         TP "("; TStr "default"; TP ")"; TP "]"; TP "]"] = None /\
      Syntax.vendor_attribute "gnu"
        [TP "["; TP "["; TId "gnu"; TP ":"; TId "visibility";
         TP "("; TStr "default"; TP ")"; TP "]"; TP "]"] = false /\
      expand 1 tbl [TId "GEM5_LOCAL"]
        = Some [TP "["; TP "["; TId "gnu"; TP "::"; TId "visibility";
                TP "("; TStr "hidden"; TP ")"; TP "]"; TP "]"] /\
      Syntax.vendor_attribute "gnu"
        [TP "["; TP "["; TId "gnu"; TP "::"; TId "visibility";
         TP "("; TStr "hidden"; TP ")"; TP "]"; TP "]"] = true /\
      expand 1 tbl [TId "GEM5_WEAK"]
        = Some [TP "["; TP "["; TId "gnu"; TP "::"; TId "weak";
                TP "]"; TP "]"] /\
      Syntax.vendor_attribute "gnu"
        [TP "["; TP "["; TId "gnu"; TP "::"; TId "weak"; TP "]"; TP "]"]
        = true.
Proof.
  intros tc v Hg. eexists. split; [apply (preprocess_gnu tc v Hg)|].
  destruct (supports tc "fallthrough"), (supports tc "nodiscard"),
    (supports tc "maybe_unused"), (6 <=? v), (clang tc);
    repeat split; reflexivity.
Qed.

Lemma C3_public_marker_is_malformed_witness :
  gnuc gcc9_cxx17 = Some 9 /\
  expand 1 (table_of gcc9_cxx17) [TId "GEM5_PUBLIC"]
    = Some [TP "["; TP "["; TId "gnu"; TP ":"; TId "visibility";
            TP "("; TStr "default"; TP ")"; TP "]"; TP "]"] /\
  expand 2 (table_of gcc9_cxx17) [TId "M5_PUBLIC"]
    = Some [TP "["; TP "["; TId "gnu"; TP ":"; TId "visibility";
            TP "("; TStr "default"; TP ")"; TP "]"; TP "]"] /\
  Syntax.vendor_attribute "gnu"
    [TP "["; TP "["; TId "gnu"; TP ":"; TId "visibility";
     TP "("; TStr "default"; TP ")"; TP "]"; TP "]"] = false.
Proof.
  split; [reflexivity|].
  destruct (C3_public_marker_is_malformed gcc9_cxx17 9 eq_refl)
    as [tbl [Hp [H1 [_ [H2 _]]]]].
  apply table_of_ok in Hp. subst tbl.
  split; [exact H1|]. split; [reflexivity|exact H2].
Defined.

(** C4, as the code has it.  Defining the fallthrough and no-discard
    markers never stops the build, and each expands to nothing when its
    attribute is missing; on GCC before 6 the enum-value deprecation marker
    expands to nothing.  The maybe-unused marker does not degrade to
    nothing: without the standard attribute it is [[[gnu::unused]]] on gcc
    and clang, and an [#error] on any other toolchain. *)
Theorem C4_advisory_markers_degrade :
  forall tc : toolchain,
    (forall tbl0, exists tbl,
        run_all tc (fallthrough_section ++ nodiscard_section) tbl0 = Ok tbl) /\
    (forall v, gnuc tc = Some v ->
       exists tbl,
         preprocess tc = Ok tbl /\
         (supports tc "fallthrough" = false ->
          expand 1 tbl [TId "GEM5_FALLTHROUGH"] = Some []) /\
         (supports tc "nodiscard" = false ->
          expand 1 tbl [TId "GEM5_NO_DISCARD"] = Some []) /\
         (supports tc "maybe_unused" = false ->
          expand 1 tbl [TId "GEM5_VAR_USED"]
            = Some [TP "["; TP "["; TId "gnu"; TP "::"; TId "unused";
                    TP "]"; TP "]"]) /\
         (clang tc = false -> v < 6 ->
          forall message, simple_arg message = true ->
            expand 1 tbl (call "GEM5_DEPRECATED_ENUM_VAL" [message])
              = Some [])) /\
    (gnuc tc = None -> supports tc "maybe_unused" = false ->
     run_all tc var_used_section [] = Failed dont_know /\
     run_all tc advisory_sections [] = Failed dont_know).
Proof.
  intros tc. split; [|split].
  - intros tbl0. unfold fallthrough_section, nodiscard_section.
    cbn [app run_all run]. unfold holds. cbn [eval_pp].
    destruct (has_cpp_attribute tc "fallthrough" =? 0),
      (has_cpp_attribute tc "nodiscard" =? 0); cbn; eauto.
  - intros v Hg.
    eexists. split; [apply (preprocess_gnu tc v Hg)|].
    repeat split.
    + intros ->. destruct (supports tc "nodiscard"),
        (supports tc "maybe_unused"), (6 <=? v), (clang tc); reflexivity.
    + intros ->. destruct (supports tc "fallthrough"),
        (supports tc "maybe_unused"), (6 <=? v), (clang tc); reflexivity.
    + intros ->. destruct (supports tc "fallthrough"),
        (supports tc "nodiscard"), (6 <=? v), (clang tc); reflexivity.
    + intros Hcl Hv message Hs.
      set (tbl := gnu_table _ _ _ _ _).
      assert (lookup "GEM5_DEPRECATED_ENUM_VAL" tbl
              = Some (GEM5_DEPRECATED_ENUM_VAL false)) as Hl.
      { unfold tbl. rewrite lookup_enum_val, Hcl. cbn.
        now apply Z.leb_gt in Hv as ->. }
      rewrite <- (app_nil_r (call "GEM5_DEPRECATED_ENUM_VAL" _)).
      rewrite (expand_call 0 tbl _ _ ["message"] [message]
                 [("message", message)] [] Hl);
        try reflexivity; try discriminate.
      cbn. now rewrite Hs.
  - intros Hg Hmu. unfold supports in Hmu.
    apply negb_false_iff in Hmu.
    unfold advisory_sections, fallthrough_section, nodiscard_section,
      var_used_section.
    cbn [app run_all run]. unfold holds. cbn [eval_pp].
    rewrite Hmu. unfold is_defined, predefined. cbn. rewrite Hg.
    destruct (has_cpp_attribute tc "fallthrough" =? 0),
      (has_cpp_attribute tc "nodiscard" =? 0); cbn; rewrite ?Hg; auto.
Qed.

Lemma C4_advisory_markers_degrade_witness :
  (gnuc gcc5_cxx14 = Some 5 /\
   supports gcc5_cxx14 "fallthrough" = false /\
   supports gcc5_cxx14 "nodiscard" = false /\
   supports gcc5_cxx14 "maybe_unused" = false /\
   expand 1 (table_of gcc5_cxx14) [TId "GEM5_FALLTHROUGH"] = Some [] /\
   expand 1 (table_of gcc5_cxx14) [TId "GEM5_NO_DISCARD"] = Some [] /\
   expand 1 (table_of gcc5_cxx14) [TId "GEM5_VAR_USED"]
     = Some [TP "["; TP "["; TId "gnu"; TP "::"; TId "unused"; TP "]"; TP "]"] /\
   expand 1 (table_of gcc5_cxx14)
     (call "GEM5_DEPRECATED_ENUM_VAL" [[TStr "use NewValue"]]) = Some []) /\
  (gnuc other_cxx14 = None /\
   supports other_cxx14 "maybe_unused" = false /\
   run_all other_cxx14 var_used_section [] = Failed dont_know).
Proof.
  split.
  - destruct (C4_advisory_markers_degrade gcc5_cxx14) as [_ [H _]].
    destruct (H 5 eq_refl) as [tbl [Hp [H1 [H2 [H3 H4]]]]].
    apply table_of_ok in Hp. subst tbl.
    split; [reflexivity|]. split; [reflexivity|]. split; [reflexivity|].
    split; [reflexivity|].
    split; [exact (H1 eq_refl)|]. split; [exact (H2 eq_refl)|].
    split; [exact (H3 eq_refl)|].
    apply H4; [reflexivity|lia|reflexivity].
  - destruct (C4_advisory_markers_degrade other_cxx14) as [_ [_ H]].
    split; [reflexivity|]. split; [reflexivity|].
    exact (proj1 (H eq_refl eq_refl)).
Defined.

(** C4 as it is written fails: on gcc 5 without [maybe_unused] the
    maybe-unused marker is not empty, and on an unknown compiler without
    [maybe_unused] defining it stops the build. *)
Lemma C4_counterexample :
  ~ degrades_silently gcc5_cxx14 /\ ~ degrades_silently other_cxx14.
Proof.
  split; intros [tbl [Hrun Hall]].
  - vm_compute in Hrun. inversion Hrun; subst tbl. clear Hrun.
    rewrite Forall_forall in Hall.
    specialize (Hall ("GEM5_VAR_USED", "maybe_unused")).
    cbn [fst snd] in Hall.
    assert (expand 1
              [("GEM5_VAR_USED",
                 object_like [lb; lb; TId "gnu"; TP "::"; TId "unused"; rb; rb]);
               ("GEM5_NO_DISCARD", object_like []);
               ("GEM5_FALLTHROUGH", object_like [])]
              [TId "GEM5_VAR_USED"] = Some []) as H.
    { apply Hall; [|reflexivity]. cbn. tauto. }
    vm_compute in H. discriminate.
  - vm_compute in Hrun. discriminate.
Qed.

(* ================================================================= *)
(** ** The legacy names *)

Lemma lookup_in (tbl : table) (n : string) (m : macro) :
  lookup n tbl = Some m -> In n (names tbl).
Proof.
  induction tbl as [|[k m'] tbl IH]; cbn; [discriminate|].
  destruct (String.eqb_spec k n); [now left|]. intros H. right. auto.
Qed.

Lemma existsb_eqb_in (n : string) (l : list string) :
  existsb (String.eqb n) l = true <-> In n l.
Proof.
  rewrite existsb_exists. split.
  - intros [x [Hin Heq]]. apply String.eqb_eq in Heq. now subst.
  - intros Hin. exists n. split; [assumption|apply String.eqb_refl].
Qed.

Lemma alias_of_legacy (tbl : table) (legacy g : string) :
  alias_of tbl legacy = Some g -> In legacy (legacy_names tbl).
Proof.
  unfold alias_of, legacy_names. intros H.
  destruct (String.prefix legacy_prefix legacy) eqn:Hp; [|discriminate].
  destruct (lookup legacy tbl) as [m|] eqn:Hl; [|discriminate].
  apply filter_In. split; [|assumption]. now apply lookup_in in Hl.
Qed.

Lemma aliased_spec (tbl : table) (modern : string) :
  aliased tbl modern = true <-> exists legacy, alias_of tbl legacy = Some modern.
Proof.
  unfold aliased. rewrite existsb_exists. split.
  - intros [l [_ H]]. exists l.
    destruct (alias_of tbl l) as [g|]; [|discriminate].
    apply String.eqb_eq in H. now subst.
  - intros [l H]. exists l. split; [now apply alias_of_legacy in H|].
    rewrite H. apply String.eqb_refl.
Qed.

Lemma plain_invocation_invoked (tbl : table) (n : string) (rest : tokens) :
  plain_invocation tbl n rest = true -> invoked tbl n rest = true.
Proof.
  unfold plain_invocation, invoked.
  destruct (lookup n tbl) as [m|]; [|discriminate].
  destruct (m_params m); [|reflexivity].
  destruct rest as [|t r]; [discriminate|].
  intros H. now apply andb_true_iff in H as [H _].
Qed.

(** An alias that forwards is interchangeable with its target. *)
Lemma forwards_same_expansion (tbl : table) (legacy modern : string) :
  forwards tbl legacy = true ->
  alias_of tbl legacy = Some modern ->
  same_expansion tbl legacy modern.
Proof.
  intros Hf Ha rest Hinv out.
  apply plain_invocation_invoked in Hinv.
  unfold alias_of in Ha. unfold forwards in Hf.
  destruct (String.prefix legacy_prefix legacy); [|discriminate].
  destruct (lookup legacy tbl) as [m|] eqn:Hl; [|discriminate].
  destruct (alias_shape_of m) as [a|] eqn:Hs; [|discriminate].
  destruct (String.prefix modern_prefix (target a)); [|discriminate].
  inversion Ha; subst modern; clear Ha.
  assert (forall fuel,
             expand (S fuel) tbl (TId legacy :: rest)
             = expand fuel tbl (TId (target a) :: rest)) as Hstep.
  { pose proof (alias_shape_inv _ _ Hs) as Hi.
    unfold invoked in Hinv. rewrite Hl in Hinv.
    destruct a as [g|x g|g]; cbn [target] in *.
    - intros fuel. now apply (alias_object_step tbl legacy g m).
    - destruct Hi as [Hm _]. rewrite Hm in Hinv. cbn in Hinv.
      destruct rest as [|t r]; [discriminate|].
      apply is_punct_eq in Hinv. subst t.
      destruct (lookup g tbl) as [m'|] eqn:Hg; [|discriminate].
      destruct (m_params m') as [[|p [|? ?]]|] eqn:Hp; try discriminate.
      destruct (m_variadic m') eqn:Hv; [discriminate|].
      intros fuel.
      apply (alias_function_step tbl legacy x g m m'); eauto.
    - destruct Hi as [Hm _]. rewrite Hm in Hinv. cbn in Hinv.
      destruct rest as [|t r]; [discriminate|].
      apply is_punct_eq in Hinv. subst t.
      destruct (lookup g tbl) as [m'|] eqn:Hg; [|discriminate].
      destruct (m_params m') as [[|? ?]|] eqn:Hp; try discriminate.
      destruct (m_variadic m') eqn:Hv; [|discriminate].
      intros fuel.
      now apply (alias_variadic_step tbl legacy g m m'). }
  split; intros [fuel H].
  - destruct fuel as [|fuel].
    + now rewrite expand_zero_invoked in H.
    + exists fuel. now rewrite <- Hstep.
  - exists (S fuel). now rewrite Hstep.
Qed.

Lemma alias_check_sound (tbl : table) :
  alias_check tbl = true ->
  (forall legacy,
      In legacy (legacy_names tbl) ->
      exists modern,
        alias_of tbl legacy = Some modern /\
        In modern (modern_names tbl) /\
        forwards tbl legacy = true /\
        same_expansion tbl legacy modern) /\
  (forall l1 l2 g,
      alias_of tbl l1 = Some g -> alias_of tbl l2 = Some g -> l1 = l2) /\
  (forall modern,
      In modern (modern_names tbl) ->
      (exists legacy, alias_of tbl legacy = Some modern) <->
      ~ In modern deprecation_family).
Proof.
  unfold alias_check. intros H.
  apply andb_true_iff in H as [H H3]. apply andb_true_iff in H as [H1 H2].
  rewrite forallb_forall in H1.
  split; [|split].
  - intros legacy Hin. specialize (H1 _ Hin). unfold alias_target_ok in H1.
    apply andb_true_iff in H1 as [Hf Ht].
    destruct (alias_of tbl legacy) as [g|] eqn:Ha; [|discriminate].
    exists g. split; [reflexivity|]. split; [now apply existsb_eqb_in|].
    split; [assumption|]. now apply forwards_same_expansion.
  - intros l1 l2 g Ha1 Ha2. unfold aliases_injective in H2.
    rewrite forallb_forall in H2.
    specialize (H2 _ (alias_of_legacy _ _ _ Ha1)).
    rewrite forallb_forall in H2.
    specialize (H2 _ (alias_of_legacy _ _ _ Ha2)).
    rewrite Ha1, Ha2, String.eqb_refl in H2. cbn in H2.
    now apply String.eqb_eq.
  - intros modern Hin. unfold unaliased_are_deprecation in H3.
    rewrite forallb_forall in H3. specialize (H3 _ Hin).
    apply Bool.eqb_prop in H3. rewrite <- aliased_spec, H3.
    rewrite negb_true_iff, <- existsb_eqb_in.
    now destruct (existsb (String.eqb modern) deprecation_family).
Qed.

Lemma gnu_table_alias_check (ft nd mu enum_ok cl : bool) :
  alias_check (gnu_table ft nd mu enum_ok cl) = true.
Proof. destruct ft, nd, mu, enum_ok, cl; vm_compute; reflexivity. Qed.




(* ================================================================= *)
(** ** The deprecation wrappers as token sequences *)

Lemma expand_deprecated_app (tbl : table) (fuel : nat) (message rest : tokens) :
  core tbl ->
  simple_arg message = true ->
  macro_free tbl message = true ->
  expand (S fuel) tbl (call "GEM5_DEPRECATED" [message] ++ rest)
  = match expand fuel tbl rest with
    | Some out => Some (deprecated_attribute message ++ out)
    | None => None
    end.
Proof.
  intros Hc Hs Hm.
  rewrite (expand_call fuel tbl "GEM5_DEPRECATED" GEM5_DEPRECATED ["message"]
             [message] [("message", message)]);
    try reflexivity; try discriminate.
  - apply expand_plain_app.
    unfold deprecated_attribute. cbn [subst assoc m_body GEM5_DEPRECATED
      function_like lb rb lp rp String.eqb Ascii.eqb Bool.eqb].
    plain_tokens Hc.
  - apply (core_lookup _ _ _ Hc). cbn. tauto.
  - cbn. now rewrite Hs.
Qed.

Lemma expand_deprecated_macro (tbl : table) (fuel : nat) (name : string)
    (definition : tokens) (message : string) (rest : tokens) :
  core tbl ->
  lookup name tbl = None ->
  simple_arg definition = true ->
  macro_free tbl definition = true ->
  expand (2 + fuel) tbl
    (call "GEM5_DEPRECATED_MACRO" [[TId name]; definition; [TStr message]]
       ++ rest)
  = match expand fuel tbl rest with
    | Some out => Some (deprecated_macro_expr name definition message ++ out)
    | None => None
    end.
Proof.
  intros Hc Hn Hs Hm.
  rewrite (expand_call (S fuel) tbl _ GEM5_DEPRECATED_MACRO
             ["name"; "definition"; "message"] _
             [("name", [TId name]); ("definition", definition);
              ("message", [TStr message])]);
    try reflexivity; try discriminate.
  - cbn [subst assoc m_body GEM5_DEPRECATED_MACRO function_like
         String.eqb Ascii.eqb Bool.eqb app lp rp lb rb lc rc semi comma].
    rewrite <- app_assoc. cbn [app].
    scan_plain Hc.
    match goal with
    | |- context [TId "GEM5_DEPRECATED" :: ?l :: ?m :: ?r :: ?rest2] =>
        change (TId "GEM5_DEPRECATED" :: l :: m :: r :: rest2)
          with (call "GEM5_DEPRECATED" [[m]] ++ rest2)
    end.
    rewrite expand_deprecated_app by (assumption || reflexivity).
    scan_plain Hc.
    destruct (expand fuel tbl rest) as [out|]; [|reflexivity].
    cbn [keep]. unfold deprecated_macro_expr, deprecated_attribute.
    cbn [subst assoc m_body GEM5_DEPRECATED function_like
         String.eqb Ascii.eqb Bool.eqb app lp rp lb rb lc rc semi comma].
    now rewrite <- app_assoc.
  - apply (core_lookup _ _ _ Hc). cbn. tauto.
  - cbn. now rewrite Hs.
Qed.

Lemma expand_deprecated_macro_stmt (tbl : table) (fuel : nat) (name : string)
    (definition : tokens) (message : string) (rest : tokens) :
  core tbl ->
  lookup name tbl = None ->
  simple_arg definition = true ->
  macro_free tbl definition = true ->
  expand (3 + fuel) tbl
    (call "GEM5_DEPRECATED_MACRO_STMT" [[TId name]; definition; [TStr message]]
       ++ rest)
  = match expand fuel tbl rest with
    | Some out => Some (deprecated_macro_stmt name definition message ++ out)
    | None => None
    end.
Proof.
  intros Hc Hn Hs Hm.
  rewrite (expand_call (2 + fuel) tbl _ GEM5_DEPRECATED_MACRO_STMT
             ["name"; "definition"; "message"] _
             [("name", [TId name]); ("definition", definition);
              ("message", [TStr message])]);
    try reflexivity; try discriminate.
  - cbn [subst assoc m_body GEM5_DEPRECATED_MACRO_STMT function_like
         String.eqb Ascii.eqb Bool.eqb app lp rp lb rb lc rc semi comma].
    rewrite <- app_assoc. cbn [app].
    scan_plain Hc.
    match goal with
    | |- context [TId "GEM5_DEPRECATED_MACRO" :: ?l :: ?n :: ?c1 :: ?o :: ?c
                    :: ?c2 :: ?m :: ?r :: ?rest2] =>
        change (TId "GEM5_DEPRECATED_MACRO" :: l :: n :: c1 :: o :: c
                  :: c2 :: m :: r :: rest2)
          with (call "GEM5_DEPRECATED_MACRO" [[n]; [o; c]; [m]] ++ rest2)
    end.
    rewrite (expand_deprecated_macro tbl fuel name [lc; rc] message)
      by (assumption || reflexivity).
    scan_plain Hc.
    destruct (expand fuel tbl rest) as [out|]; [|reflexivity].
    cbn [keep]. unfold deprecated_macro_stmt.
    cbn [app]. rewrite <- !app_assoc. reflexivity.
  - apply (core_lookup _ _ _ Hc). cbn. tauto.
  - cbn. now rewrite Hs.
Qed.


(** The braces alone would not do: with [{ f(x); }] in place of the
    wrapper, the semicolon written after it is a statement of its own, the
    [if] ends before it, and the [else] that follows belongs to no [if]. *)
Example braces_alone_strand_the_else :
  Syntax.parse_statement 7
    [TId "if"; lp; TId "c"; rp; lc; TId "f"; lp; TId "x"; rp; semi; rc; semi;
     TId "else"; TId "g"; lp; rp; semi]
  = Some [semi; TId "else"; TId "g"; lp; rp; semi] /\
  Syntax.parse_statement 7 [TId "else"; TId "g"; lp; rp; semi] = None.
Proof. split; reflexivity. Qed.

(** Tokens that are no statement are not read as one. *)
Example no_statement :
  Syntax.parse_statement 7
    [TId "else"; TId "else"; lc; semi; semi; rc; TP "+"; semi] = None /\
  Syntax.parse_statement 7 [TId "f"; lp; TId "x"; rb; semi] = None /\
  Syntax.parse_statement 7 [TId "do"; semi; TId "while"; lp; rp; semi] = None.
Proof. repeat split. Qed.

(* ================================================================= *)
(** ** The macros on concrete inputs *)

Example likely_true_once :
  Sem.GEM5_LIKELY (Sem.action "c" 7) [] = Some (Sem.VInt 1, ["c"]).
Proof. reflexivity. Qed.

Example unlikely_false_once :
  Sem.GEM5_UNLIKELY (Sem.action "c" 0) ["before"]
  = Some (Sem.VInt 0, ["before"; "c"]).
Proof. reflexivity. Qed.

Example deprecated_macro_value :
  Sem.GEM5_DEPRECATED_MACRO Sem.no_user_comma "OLD"
    (Sem.Expression (Sem.action "e" 42)) "use NEW" []
  = Some (Sem.VInt 42, ["e"]).
Proof. reflexivity. Qed.

Example deprecated_macro_value_overloaded :
  Sem.GEM5_DEPRECATED_MACRO Sem.logging_comma "OLD"
    (Sem.Expression (Sem.action "e" 42)) "use NEW" []
  = Some (Sem.VInt 1042, ["e"; "operator,"]).
Proof. reflexivity. Qed.

Example likely_of_lambda :
  Sem.GEM5_LIKELY (Sem.lambda (Sem.perform "body")) []
  = Some (Sem.VInt 1, []).
Proof. reflexivity. Qed.

Example deprecated_macro_stmt_break :
  Sem.GEM5_DEPRECATED_MACRO_STMT Sem.logging_comma 1 "OLD"
    (fun s : Sem.log => Some (Sem.OBreak, s ++ ["break"])) "use NEW" []
  = Some (Sem.ONormal, ["break"]).
Proof. reflexivity. Qed.

Example for_each_three_actions :
  Sem.GEM5_FOR_EACH_IN_PACK Sem.logging_comma [] 1
    [Sem.action "a" 1; Sem.action "b" 2; Sem.action "c" 3] []
  = Some (Sem.ONormal, ["a"; "b"; "c"]).
Proof. reflexivity. Qed.

Example likely_tokens :
  expand 2 (table_of clang10_cxx17)
    (call "M5_LIKELY" [[TId "x"; TP "=="; TNum 3]])
  = Some [TId "__builtin_expect"; TP "("; TP "!"; TP "!"; TP "(";
          TId "x"; TP "=="; TNum 3; TP ")"; TP ","; TNum 1; TP ")"].
Proof. reflexivity. Qed.

Example for_each_tokens :
  expand 3 (table_of gcc5_cxx14)
    (call "M5_FOR_EACH_IN_PACK" [[TId "f"; lp; TId "args"; rp]])
  = Some [TId "do"; TP "{"; TP "["; TP "["; TId "gnu"; TP "::"; TId "unused";
          TP "]"; TP "]"; TId "int"; TId "i"; TP "["; TP "]"; TP "=";
          TP "{"; TNum 0; TP ","; TP "("; TP "("; TId "void"; TP ")";
          TP "("; TId "f"; TP "("; TId "args"; TP ")"; TP ")"; TP ",";
          TNum 0; TP ")"; TP "..."; TP "}"; TP ";"; TP "}";
          TId "while"; TP "("; TNum 0; TP ")"].
Proof. reflexivity. Qed.

Example class_var_used_tokens :
  expand 3 (table_of clang10_cxx17) [TId "M5_CLASS_VAR_USED"]
  = Some [TP "["; TP "["; TId "maybe_unused"; TP "]"; TP "]"] /\
  expand 3 (table_of gcc9_cxx17) [TId "M5_CLASS_VAR_USED"] = Some [].
Proof. split; reflexivity. Qed.

(* ================================================================= *)
(** ** The header as a whole *)

(** The header is refused only without [__GNUC__], and only with the one
    message. *)
Theorem header_refused_only_without_gnuc :
  forall (tc : toolchain) (msg : string),
    preprocess tc = Failed msg ->
    gnuc tc = None /\ msg = "Don't know what to do for your compiler.".
Proof.
  intros tc msg H. destruct (gnuc tc) as [v|] eqn:Hg.
  - rewrite (preprocess_gnu tc v Hg) in H. discriminate.
  - rewrite (preprocess_other tc Hg) in H. inversion H. now split.
Qed.

Lemma header_refused_only_without_gnuc_witness :
  preprocess other_cxx14 = Failed dont_know /\
  gnuc other_cxx14 = None /\
  dont_know = "Don't know what to do for your compiler.".
Proof.
  split; [reflexivity|].
  apply (header_refused_only_without_gnuc other_cxx14 dont_know).
  reflexivity.
Defined.

Lemma accepted_table (tc : toolchain) (tbl : table) :
  preprocess tc = Ok tbl ->
  exists ft nd mu enum_ok cl, tbl = gnu_table ft nd mu enum_ok cl.
Proof.
  intros H. destruct (gnuc tc) as [v|] eqn:Hg.
  - rewrite (preprocess_gnu tc v Hg) in H. inversion H. eauto 6.
  - rewrite (preprocess_other tc Hg) in H. discriminate.
Qed.

(** Reduces a goal about the table of an accepted toolchain to the 32
    tables there are. *)
Ltac accepted_tables H :=
  apply accepted_table in H;
  destruct H as [ft [nd [mu [enum_ok [cl H]]]]]; subst;
  destruct ft, nd, mu, enum_ok, cl.

Lemma nodup_sound (l : list string) :
  (fix distinct (l : list string) : bool :=
     match l with
     | [] => true
     | x :: l' => negb (existsb (String.eqb x) l') && distinct l'
     end) l = true -> NoDup l.
Proof.
  induction l as [|x l IH]; intros H; constructor.
  - apply andb_true_iff in H as [H _]. apply negb_true_iff in H.
    intros Hin. apply existsb_eqb_in in Hin. congruence.
  - apply IH. now apply andb_true_iff in H as [_ H].
Qed.

(** Whatever the toolchain, an accepted header defines the same 33 names,
    each of them once. *)
Theorem header_defines_each_name_once :
  forall (tc : toolchain) (tbl : table),
    preprocess tc = Ok tbl ->
    names tbl = names (table_of gcc9_cxx17) /\
    length (names tbl) = 33%nat /\
    NoDup (names tbl).
Proof.
  intros tc tbl H. accepted_tables H;
    (split; [reflexivity|]; split; [reflexivity|];
     apply nodup_sound; vm_compute; reflexivity).
Qed.

Lemma header_defines_each_name_once_witness :
  preprocess clang10_cxx17 = Ok (table_of clang10_cxx17) /\
  names (table_of clang10_cxx17) = names (table_of gcc9_cxx17) /\
  length (names (table_of clang10_cxx17)) = 33%nat /\
  NoDup (names (table_of clang10_cxx17)).
Proof.
  split; [reflexivity|].
  apply (header_defines_each_name_once clang10_cxx17). reflexivity.
Defined.

(** The include guard: reading the header a second time leaves the macro
    table as it is. *)
Theorem header_is_idempotent :
  forall (tc : toolchain) (tbl : table),
    preprocess tc = Ok tbl ->
    run_all tc compiler_hh tbl = Ok tbl.
Proof.
  intros tc tbl H.
  assert (lookup "__BASE_COMPILER_HH__" tbl <> None) as Hl.
  { accepted_tables H; discriminate. }
  unfold compiler_hh. cbn [run_all run]. unfold holds. cbn [eval_pp].
  unfold is_defined.
  destruct (predefined tc "__BASE_COMPILER_HH__"),
    (lookup "__BASE_COMPILER_HH__" tbl); try reflexivity.
  contradiction.
Qed.

Lemma header_is_idempotent_witness :
  preprocess gcc5_cxx14 = Ok (table_of gcc5_cxx14) /\
  run_all gcc5_cxx14 compiler_hh (table_of gcc5_cxx14)
  = Ok (table_of gcc5_cxx14).
Proof.
  split; [reflexivity|].
  apply (header_is_idempotent gcc5_cxx14). reflexivity.
Defined.

(** The header tells toolchains apart by its five tests only: it treats
    every non-zero [__has_cpp_attribute] alike and every [__GNUC__] from 6
    on alike. *)
Theorem header_reads_five_tests :
  forall tc1 tc2 : toolchain,
    Deps.agree tc1 tc2 -> preprocess tc1 = preprocess tc2.
Proof.
  intros tc1 tc2 [H1 [H2 [H3 [H4 H5]]]].
  rewrite (preprocess_features tc1), (preprocess_features tc2).
  unfold features_of. now rewrite H1, H2, H3, H4, H5.
Qed.

Lemma header_reads_five_tests_witness :
  Deps.agree gcc9_cxx17 (Toolchain (fun _ => 202002) (Some 13) false) /\
  preprocess gcc9_cxx17
  = preprocess (Toolchain (fun _ => 202002) (Some 13) false).
Proof.
  assert (Deps.agree gcc9_cxx17 (Toolchain (fun _ => 202002) (Some 13) false))
    as H by (repeat split).
  split; [exact H|].
  exact (header_reads_five_tests _ _ H).
Defined.

Lemma lookup_in_pair (tbl : table) (n : string) (m : macro) :
  lookup n tbl = Some m -> In (n, m) tbl.
Proof.
  induction tbl as [|[k m'] tbl IH]; cbn; [discriminate|].
  destruct (String.eqb_spec k n).
  - intros H. inversion H. subst. now left.
  - intros H. right. auto.
Qed.

(** No macro of the header is defined in terms of itself, directly or
    through others: each macro named in a replacement list has a smaller
    rank than the macro defined, and no rank exceeds 3.  No modern macro is
    defined in terms of a legacy name. *)
Theorem header_macros_are_layered :
  forall (tc : toolchain) (tbl : table),
    preprocess tc = Ok tbl ->
    (forall n m k,
        lookup n tbl = Some m ->
        In k (Deps.mentions tbl m) ->
        (Deps.rank tbl k < Deps.rank tbl n)%nat) /\
    (forall n, (Deps.rank tbl n <= 3)%nat) /\
    (forall n m k,
        lookup n tbl = Some m ->
        String.prefix modern_prefix n = true ->
        In k (Deps.mentions tbl m) ->
        String.prefix legacy_prefix k = false).
Proof.
  intros tc tbl H.
  assert (Deps.well_ranked tbl = true /\ Deps.rank_bounded 3 tbl = true /\
          Deps.legacy_free tbl = true /\ tbl <> []) as [Hw [Hb [Hf Hne]]].
  { accepted_tables H; repeat split; try (vm_compute; reflexivity);
      discriminate. }
  unfold Deps.well_ranked in Hw. unfold Deps.rank_bounded in Hb.
  unfold Deps.legacy_free in Hf.
  rewrite forallb_forall in Hw, Hb, Hf.
  split; [|split].
  - intros n m k Hl Hin. apply lookup_in_pair in Hl.
    specialize (Hw _ Hl). cbn [fst snd] in Hw.
    rewrite forallb_forall in Hw. now apply Nat.ltb_lt, Hw.
  - intros n. destruct (lookup n tbl) as [m|] eqn:Hl.
    + apply lookup_in_pair in Hl. now apply Nat.leb_le, (Hb _ Hl).
    + unfold Deps.rank. destruct tbl as [|e tbl]; [contradiction|].
      cbn [length Deps.depth]. rewrite Hl. lia.
  - intros n m k Hl Hp Hin. apply lookup_in_pair in Hl.
    specialize (Hf _ Hl). cbn [fst snd] in Hf. rewrite Hp in Hf.
    rewrite forallb_forall in Hf. now apply negb_true_iff, Hf.
Qed.

Lemma header_macros_are_layered_witness :
  preprocess clang10_cxx17 = Ok (table_of clang10_cxx17) /\
  Deps.mentions (table_of clang10_cxx17) (object_like [TId "GEM5_VAR_USED"])
  = ["GEM5_VAR_USED"] /\
  (Deps.rank (table_of clang10_cxx17) "GEM5_VAR_USED"
   < Deps.rank (table_of clang10_cxx17) "GEM5_CLASS_VAR_USED")%nat /\
  (Deps.rank (table_of clang10_cxx17) "M5_CLASS_VAR_USED" <= 3)%nat.
Proof.
  split; [reflexivity|]. split; [reflexivity|].
  destruct (header_macros_are_layered clang10_cxx17 _ eq_refl)
    as [H1 [H2 _]].
  split; [|apply H2].
  apply (H1 "GEM5_CLASS_VAR_USED" (object_like [TId "GEM5_VAR_USED"]));
    [reflexivity|].
  left. reflexivity.
Defined.

(** Every object-like macro of the header, legacy or modern, is replaced
    completely within three steps: the result names no macro. *)
Theorem header_objects_expand_fully :
  forall (tc : toolchain) (tbl : table) (n : string) (body : tokens),
    preprocess tc = Ok tbl ->
    lookup n tbl = Some (object_like body) ->
    exists out,
      expand 3 tbl [TId n] = Some out /\ macro_free tbl out = true.
Proof.
  intros tc tbl n body H Hl.
  assert (Deps.objects_expand 3 tbl = true) as Ho.
  { accepted_tables H; vm_compute; reflexivity. }
  unfold Deps.objects_expand in Ho. rewrite forallb_forall in Ho.
  specialize (Ho _ (lookup_in_pair _ _ _ Hl)). cbn [fst snd m_params
    object_like] in Ho.
  destruct (expand 3 tbl [TId n]) as [out|]; [|discriminate]. eauto.
Qed.

Lemma header_objects_expand_fully_witness :
  preprocess clang10_cxx17 = Ok (table_of clang10_cxx17) /\
  lookup "M5_CLASS_VAR_USED" (table_of clang10_cxx17)
  = Some (object_like [TId "GEM5_CLASS_VAR_USED"]) /\
  exists out,
    expand 3 (table_of clang10_cxx17) [TId "M5_CLASS_VAR_USED"] = Some out /\
    macro_free (table_of clang10_cxx17) out = true.
Proof.
  split; [reflexivity|]. split; [reflexivity|].
  apply (header_objects_expand_fully clang10_cxx17 _ "M5_CLASS_VAR_USED"
           [TId "GEM5_CLASS_VAR_USED"]); reflexivity.
Defined.

(* ================================================================= *)
(** ** The attribute markers *)

Lemma accepted_gnu (tc : toolchain) (tbl : table) :
  preprocess tc = Ok tbl ->
  exists v,
    gnuc tc = Some v /\
    tbl = gnu_table (supports tc "fallthrough") (supports tc "nodiscard")
            (supports tc "maybe_unused") (6 <=? v) (clang tc).
Proof.
  intros H. destruct (gnuc tc) as [v|] eqn:Hg.
  - rewrite (preprocess_gnu tc v Hg) in H. inversion H. eauto.
  - rewrite (preprocess_other tc Hg) in H. discriminate.
Qed.

Lemma accepted_core (tc : toolchain) (tbl : table) :
  preprocess tc = Ok tbl -> core tbl.
Proof.
  intros H. apply accepted_table in H.
  destruct H as [ft [nd [mu [enum_ok [cl ->]]]]]. apply gnu_table_core.
Qed.

(** Apart from [GEM5_PUBLIC], each marker that stands for an attribute
    expands, under its modern and under its legacy name, to nothing or to
    one well-formed attribute specifier. *)
Theorem attribute_markers_are_well_formed :
  forall (tc : toolchain) (tbl : table) (n : string),
    preprocess tc = Ok tbl ->
    In n Deps.attribute_markers ->
    exists out,
      expand 3 tbl [TId n] = Some out /\
      (out = [] \/ Syntax.attribute_specifier out <> None).
Proof.
  intros tc tbl n H Hin.
  assert (Deps.markers_well_formed tbl = true) as Hm.
  { accepted_tables H; vm_compute; reflexivity. }
  unfold Deps.markers_well_formed in Hm. rewrite forallb_forall in Hm.
  specialize (Hm _ Hin).
  destruct (expand 3 tbl [TId n]) as [out|]; [|discriminate].
  exists out. split; [reflexivity|].
  destruct out as [|t out]; [now left|right].
  cbn [Deps.empty_or_attribute] in Hm.
  destruct (Syntax.attribute_specifier (t :: out)); discriminate.
Qed.

Lemma attribute_markers_are_well_formed_witness :
  preprocess gcc5_cxx14 = Ok (table_of gcc5_cxx14) /\
  In "M5_ATTR_PACKED" Deps.attribute_markers /\
  exists out,
    expand 3 (table_of gcc5_cxx14) [TId "M5_ATTR_PACKED"] = Some out /\
    (out = [] \/ Syntax.attribute_specifier out <> None).
Proof.
  assert (In "M5_ATTR_PACKED" Deps.attribute_markers) as Hin.
  { apply existsb_eqb_in. reflexivity. }
  split; [reflexivity|]. split; [exact Hin|].
  exact (attribute_markers_are_well_formed gcc5_cxx14 _ _ eq_refl Hin).
Defined.

(** [GEM5_CLASS_VAR_USED] is [GEM5_VAR_USED] on clang and nothing
    elsewhere; [GEM5_VAR_USED] itself is never empty: the standard
    attribute when there is one, the gnu attribute otherwise. *)
Theorem class_var_used_is_clang_only :
  forall (tc : toolchain) (tbl : table),
    preprocess tc = Ok tbl ->
    expand 1 tbl [TId "GEM5_VAR_USED"]
      = Some (Deps.var_used_attribute (supports tc "maybe_unused")) /\
    (clang tc = true ->
     expand 2 tbl [TId "GEM5_CLASS_VAR_USED"]
       = Some (Deps.var_used_attribute (supports tc "maybe_unused")) /\
     expand 3 tbl [TId "M5_CLASS_VAR_USED"]
       = Some (Deps.var_used_attribute (supports tc "maybe_unused"))) /\
    (clang tc = false ->
     expand 1 tbl [TId "GEM5_CLASS_VAR_USED"] = Some [] /\
     expand 2 tbl [TId "M5_CLASS_VAR_USED"] = Some []).
Proof.
  intros tc tbl H. apply accepted_gnu in H. destruct H as [v [_ ->]].
  split; [|split].
  - destruct (supports tc "fallthrough"), (supports tc "nodiscard"),
      (supports tc "maybe_unused"), (6 <=? v), (clang tc); reflexivity.
  - intros ->.
    destruct (supports tc "fallthrough"), (supports tc "nodiscard"),
      (supports tc "maybe_unused"), (6 <=? v); split; reflexivity.
  - intros ->.
    destruct (supports tc "fallthrough"), (supports tc "nodiscard"),
      (supports tc "maybe_unused"), (6 <=? v); split; reflexivity.
Qed.

Lemma class_var_used_is_clang_only_witness :
  (preprocess clang10_cxx17 = Ok (table_of clang10_cxx17) /\
   clang clang10_cxx17 = true /\
   expand 2 (table_of clang10_cxx17) [TId "GEM5_CLASS_VAR_USED"]
   = Some [TP "["; TP "["; TId "maybe_unused"; TP "]"; TP "]"]) /\
  (preprocess gcc5_cxx14 = Ok (table_of gcc5_cxx14) /\
   clang gcc5_cxx14 = false /\
   expand 1 (table_of gcc5_cxx14) [TId "GEM5_VAR_USED"]
   = Some [TP "["; TP "["; TId "gnu"; TP "::"; TId "unused"; TP "]"; TP "]"] /\
   expand 1 (table_of gcc5_cxx14) [TId "GEM5_CLASS_VAR_USED"] = Some []).
Proof.
  split.
  - split; [reflexivity|]. split; [reflexivity|].
    destruct (class_var_used_is_clang_only clang10_cxx17 _ eq_refl)
      as [_ [H _]].
    exact (proj1 (H eq_refl)).
  - split; [reflexivity|]. split; [reflexivity|].
    destruct (class_var_used_is_clang_only gcc5_cxx14 _ eq_refl)
      as [H1 [_ H2]].
    split; [exact H1|exact (proj1 (H2 eq_refl))].
Defined.

(** An attribute of a vendor namespace with one argument whose
    parentheses, square brackets and braces match is well formed. *)
Lemma vendor_attribute_with_argument (ns a : string) (arg : tokens) :
  Syntax.balanced arg = true ->
  Syntax.vendor_attribute ns
    ([lb; lb; TId ns; TP "::"; TId a; lp] ++ arg ++ [rp; rb; rb]) = true.
Proof.
  intros Hs.
  replace ([lb; lb; TId ns; TP "::"; TId a; lp] ++ arg ++ [rp; rb; rb])
    with (lb :: lb :: (TId ns :: TP "::" :: TId a :: lp :: arg ++ [rp])
                      ++ [rb; rb])
    by (cbn [app]; now rewrite <- app_assoc).
  remember (TId ns :: TP "::" :: TId a :: lp :: arg ++ [rp]) as inner
    eqn:Hinner.
  unfold Syntax.vendor_attribute, Syntax.attribute_specifier, Syntax.unbracket.
  rewrite rev_app_distr. cbn [rev app].
  replace (is_punct "[" lb) with true by reflexivity.
  replace (is_punct "]" rb) with true by reflexivity.
  cbn [andb]. rewrite rev_involutive. subst inner.
  unfold Syntax.attribute, Syntax.argument_clause.
  replace (is_punct "::" (TP "::")) with true by reflexivity.
  replace (is_punct "(" lp) with true by reflexivity.
  fold rp. rewrite (span_balanced arg [] Hs). cbn [andb].
  apply String.eqb_refl.
Qed.

Lemma lookup_M5_ALIGNED (ft nd mu enum_ok cl : bool) :
  lookup "M5_ALIGNED" (gnu_table ft nd mu enum_ok cl)
  = Some (function_like ["x"] [TId "GEM5_ALIGNED"; lp; TId "x"; rp]).
Proof. destruct ft, nd, mu, enum_ok, cl; reflexivity. Qed.

(** [GEM5_ALIGNED(n)] and [M5_ALIGNED(n)] expand to [[[gnu::aligned(n)]]]
    for every argument [n] that names no macro, and that is a well-formed
    gnu attribute when the parentheses, square brackets and braces of [n]
    match. *)
Theorem aligned_is_gnu_attribute :
  forall (tc : toolchain) (tbl : table) (alignment : tokens),
    preprocess tc = Ok tbl ->
    simple_arg alignment = true ->
    macro_free tbl alignment = true ->
    Syntax.balanced alignment = true ->
    expand 1 tbl (call "GEM5_ALIGNED" [alignment])
      = Some ([lb; lb; TId "gnu"; TP "::"; TId "aligned"; lp]
                ++ alignment ++ [rp; rb; rb]) /\
    expand 2 tbl (call "M5_ALIGNED" [alignment])
      = Some ([lb; lb; TId "gnu"; TP "::"; TId "aligned"; lp]
                ++ alignment ++ [rp; rb; rb]) /\
    Syntax.vendor_attribute "gnu"
      ([lb; lb; TId "gnu"; TP "::"; TId "aligned"; lp]
         ++ alignment ++ [rp; rb; rb]) = true.
Proof.
  intros tc tbl alignment H Hs Hm Hb.
  pose proof (accepted_core _ _ H) as Hc.
  assert (expand 1 tbl (call "GEM5_ALIGNED" [alignment])
          = Some ([lb; lb; TId "gnu"; TP "::"; TId "aligned"; lp]
                    ++ alignment ++ [rp; rb; rb])) as H1.
  { rewrite <- (app_nil_r (call _ _)).
    rewrite (expand_call 0 tbl "GEM5_ALIGNED" GEM5_ALIGNED ["alignment"]
               [alignment] [("alignment", alignment)]);
      try reflexivity; try discriminate.
    - rewrite app_nil_r. apply expand_plain.
      cbn [subst assoc m_body GEM5_ALIGNED function_like lb rb lp rp
           String.eqb Ascii.eqb Bool.eqb].
      plain_tokens Hc.
    - apply (core_lookup _ _ _ Hc). cbn. tauto.
    - cbn. now rewrite Hs. }
  split; [exact H1|]. split.
  - apply accepted_table in H.
    destruct H as [ft [nd [mu [enum_ok [cl ->]]]]].
    unfold call. cbn [join_args app].
    rewrite (alias_function_step _ "M5_ALIGNED" "x" "GEM5_ALIGNED" _
               GEM5_ALIGNED (lookup_M5_ALIGNED _ _ _ _ _) eq_refl
               (core_lookup _ _ _ Hc (or_intror (or_intror (or_intror
                  (or_intror (or_intror (or_introl eq_refl)))))))
               (ex_intro _ "alignment" eq_refl) eq_refl).
    exact H1.
  - now apply vendor_attribute_with_argument.
Qed.

Lemma aligned_is_gnu_attribute_witness :
  preprocess gcc9_cxx17 = Ok (table_of gcc9_cxx17) /\
  simple_arg [TId "sizeof"; lp; TId "T"; rp] = true /\
  Syntax.balanced [TId "sizeof"; lp; TId "T"; rp] = true /\
  Syntax.vendor_attribute "gnu"
    [TP "["; TP "["; TId "gnu"; TP "::"; TId "aligned"; TP "(";
     TId "sizeof"; TP "("; TId "T"; TP ")"; TP ")"; TP "]"; TP "]"] = true /\
  expand 2 (table_of gcc9_cxx17)
    (call "M5_ALIGNED" [[TId "sizeof"; lp; TId "T"; rp]])
  = Some [TP "["; TP "["; TId "gnu"; TP "::"; TId "aligned"; TP "(";
          TId "sizeof"; TP "("; TId "T"; TP ")"; TP ")"; TP "]"; TP "]"].
Proof.
  split; [reflexivity|]. split; [reflexivity|]. split; [reflexivity|].
  destruct (aligned_is_gnu_attribute gcc9_cxx17 _
              [TId "sizeof"; lp; TId "T"; rp]
              eq_refl eq_refl eq_refl eq_refl) as [_ [H2 H3]].
  split; [exact H3|exact H2].
Defined.

(** [GEM5_DEPRECATED(message)] expands, for every argument that names no
    macro and wherever it stands, to [[[gnu::deprecated(message)]]], a
    well-formed gnu attribute when the parentheses, square brackets and
    braces of the argument match; the tokens after the invocation are
    expanded as they would be alone. *)
Theorem deprecated_is_gnu_attribute :
  forall (tc : toolchain) (tbl : table) (message rest : tokens) (fuel : nat),
    preprocess tc = Ok tbl ->
    simple_arg message = true ->
    macro_free tbl message = true ->
    Syntax.balanced message = true ->
    expand (S fuel) tbl (call "GEM5_DEPRECATED" [message] ++ rest)
      = match expand fuel tbl rest with
        | Some out =>
            Some (([lb; lb; TId "gnu"; TP "::"; TId "deprecated"; lp]
                     ++ message ++ [rp; rb; rb]) ++ out)
        | None => None
        end /\
    Syntax.vendor_attribute "gnu"
      ([lb; lb; TId "gnu"; TP "::"; TId "deprecated"; lp]
         ++ message ++ [rp; rb; rb]) = true.
Proof.
  intros tc tbl message rest fuel H Hs Hm Hb.
  pose proof (accepted_core _ _ H) as Hc.
  split; [|now apply vendor_attribute_with_argument].
  now rewrite (expand_deprecated_app tbl fuel message rest Hc Hs Hm).
Qed.

Lemma deprecated_is_gnu_attribute_witness :
  preprocess gcc9_cxx17 = Ok (table_of gcc9_cxx17) /\
  Syntax.balanced [TStr "use g"] = true /\
  Syntax.vendor_attribute "gnu"
    [TP "["; TP "["; TId "gnu"; TP "::"; TId "deprecated"; TP "(";
     TStr "use g"; TP ")"; TP "]"; TP "]"] = true /\
  expand 1 (table_of gcc9_cxx17)
    (call "GEM5_DEPRECATED" [[TStr "use g"]] ++ [TId "int"; TId "f"; semi])
  = Some [TP "["; TP "["; TId "gnu"; TP "::"; TId "deprecated"; TP "(";
          TStr "use g"; TP ")"; TP "]"; TP "]"; TId "int"; TId "f"; TP ";"].
Proof.
  split; [reflexivity|]. split; [reflexivity|].
  destruct (deprecated_is_gnu_attribute gcc9_cxx17 _ [TStr "use g"]
              [TId "int"; TId "f"; semi] 0 eq_refl eq_refl eq_refl eq_refl)
    as [H1 H2].
  split; [exact H2|exact H1].
Defined.

(** An argument whose brackets do not match makes no attribute. *)
Example unbalanced_argument_is_no_attribute :
  Syntax.vendor_attribute "gnu"
    ([lb; lb; TId "gnu"; TP "::"; TId "aligned"; lp]
       ++ [rb; rb; rc; TId "x"] ++ [rp; rb; rb]) = false /\
  Syntax.balanced [rb; rb; rc; TId "x"] = false /\
  Syntax.vendor_attribute "gnu"
    ([lb; lb; TId "gnu"; TP "::"; TId "aligned"; lp]
       ++ [lc; TId "x"; rb] ++ [rp; rb; rb]) = false.
Proof. repeat split. Qed.

(* ================================================================= *)
(** ** The expression and statement macros as token sequences *)

Lemma lookup_hint_aliases (ft nd mu enum_ok cl : bool) :
  lookup "M5_LIKELY" (gnu_table ft nd mu enum_ok cl)
  = Some (function_like ["x"] [TId "GEM5_LIKELY"; lp; TId "x"; rp]) /\
  lookup "M5_UNLIKELY" (gnu_table ft nd mu enum_ok cl)
  = Some (function_like ["x"] [TId "GEM5_UNLIKELY"; lp; TId "x"; rp]).
Proof. destruct ft, nd, mu, enum_ok, cl; split; reflexivity. Qed.

Lemma expand_hint (tbl : table) (fuel : nat) (n : string) (hint : Z)
    (cond rest : tokens) :
  core tbl ->
  lookup n tbl
  = Some (function_like ["cond"]
            [TId "__builtin_expect"; lp; TP "!"; TP "!"; lp; TId "cond"; rp;
             comma; TNum hint; rp]) ->
  simple_arg cond = true ->
  macro_free tbl cond = true ->
  expand (S fuel) tbl (call n [cond] ++ rest)
  = match expand fuel tbl rest with
    | Some out => Some (Deps.expect_tokens cond hint ++ out)
    | None => None
    end.
Proof.
  intros Hc Hl Hs Hm.
  rewrite (expand_call fuel tbl n _ ["cond"] [cond] [("cond", cond)] rest Hl);
    try reflexivity; try discriminate.
  - cbn [subst assoc m_body function_like String.eqb Ascii.eqb Bool.eqb app
         lp rp comma].
    rewrite <- app_assoc. cbn [app].
    scan_plain Hc.
    destruct (expand fuel tbl rest) as [out|]; [|reflexivity].
    cbn [keep]. unfold Deps.expect_tokens. cbn [app lp rp comma].
    now rewrite <- app_assoc.
  - cbn. now rewrite Hs.
Qed.

(** [GEM5_LIKELY(c)] and [GEM5_UNLIKELY(c)] expand, for every condition and
    wherever they stand, to [__builtin_expect(!!(c), 1)] and
    [__builtin_expect(!!(c), 0)]: the condition sits in parentheses of its
    own, the two differ in the hint only, and the tokens after the
    invocation are expanded as they would be alone.  The legacy names give
    the same tokens. *)
Theorem branch_hints_wrap_the_condition :
  forall (tc : toolchain) (tbl : table) (cond rest : tokens) (fuel : nat),
    preprocess tc = Ok tbl ->
    simple_arg cond = true ->
    macro_free tbl cond = true ->
    expand (S fuel) tbl (call "GEM5_LIKELY" [cond] ++ rest)
      = match expand fuel tbl rest with
        | Some out => Some (Deps.expect_tokens cond 1 ++ out)
        | None => None
        end /\
    expand (S fuel) tbl (call "GEM5_UNLIKELY" [cond] ++ rest)
      = match expand fuel tbl rest with
        | Some out => Some (Deps.expect_tokens cond 0 ++ out)
        | None => None
        end /\
    expand 2 tbl (call "M5_LIKELY" [cond]) = Some (Deps.expect_tokens cond 1) /\
    expand 2 tbl (call "M5_UNLIKELY" [cond]) = Some (Deps.expect_tokens cond 0).
Proof.
  intros tc tbl cond rest fuel H Hs Hm.
  pose proof (accepted_core _ _ H) as Hc.
  assert (lookup "GEM5_LIKELY" tbl = Some GEM5_LIKELY) as Hl1.
  { apply (core_lookup _ _ _ Hc). cbn. tauto. }
  assert (lookup "GEM5_UNLIKELY" tbl = Some GEM5_UNLIKELY) as Hl0.
  { apply (core_lookup _ _ _ Hc). cbn. tauto. }
  assert (forall n hint,
             lookup n tbl
             = Some (function_like ["cond"]
                       [TId "__builtin_expect"; lp; TP "!"; TP "!"; lp;
                        TId "cond"; rp; comma; TNum hint; rp]) ->
             expand 1 tbl (TId n :: lp :: cond ++ [rp])
             = Some (Deps.expect_tokens cond hint)) as Hone.
  { intros n hint Hl.
    change (TId n :: lp :: cond ++ [rp]) with (call n [cond]).
    rewrite <- (app_nil_r (call n [cond])).
    rewrite (expand_hint tbl 0 n hint cond [] Hc Hl Hs Hm).
    rewrite expand_nil. now rewrite app_nil_r. }
  split; [now apply expand_hint|]. split; [now apply expand_hint|].
  apply accepted_table in H.
  destruct H as [ft [nd [mu [enum_ok [cl ->]]]]].
  destruct (lookup_hint_aliases ft nd mu enum_ok cl) as [Ha1 Ha0].
  unfold call. cbn [join_args app]. split.
  - rewrite (alias_function_step _ "M5_LIKELY" "x" "GEM5_LIKELY" _
               GEM5_LIKELY Ha1 eq_refl Hl1 (ex_intro _ "cond" eq_refl) eq_refl).
    now apply Hone.
  - rewrite (alias_function_step _ "M5_UNLIKELY" "x" "GEM5_UNLIKELY" _
               GEM5_UNLIKELY Ha0 eq_refl Hl0 (ex_intro _ "cond" eq_refl) eq_refl).
    now apply Hone.
Qed.

Lemma branch_hints_wrap_the_condition_witness :
  preprocess gcc9_cxx17 = Ok (table_of gcc9_cxx17) /\
  simple_arg [TId "a"; TP "||"; TId "b"] = true /\
  expand 1 (table_of gcc9_cxx17)
    (call "GEM5_UNLIKELY" [[TId "a"; TP "||"; TId "b"]] ++ [TP "&&"; TId "c"])
  = Some [TId "__builtin_expect"; TP "("; TP "!"; TP "!"; TP "(";
          TId "a"; TP "||"; TId "b"; TP ")"; TP ","; TNum 0; TP ")";
          TP "&&"; TId "c"].
Proof.
  split; [reflexivity|]. split; [reflexivity|].
  exact (proj1 (proj2 (branch_hints_wrap_the_condition gcc9_cxx17 _
                         [TId "a"; TP "||"; TId "b"] [TP "&&"; TId "c"] 0
                         eq_refl eq_refl eq_refl))).
Defined.

(** [GEM5_DEPRECATED_MACRO(name, e, message)] expands, for every [e] and
    wherever it stands, to one parenthesised group whose opening
    parenthesis is closed by its last token, so that no operator next to
    the invocation can reach into it; the tokens after the invocation are
    expanded as they would be alone. *)
Theorem deprecated_macro_is_one_group :
  forall (tc : toolchain) (tbl : table) (name : string)
         (definition : tokens) (message : string) (rest : tokens)
         (fuel : nat),
    preprocess tc = Ok tbl ->
    lookup name tbl = None ->
    simple_arg definition = true ->
    macro_free tbl definition = true ->
    expand (2 + fuel) tbl
      (call "GEM5_DEPRECATED_MACRO" [[TId name]; definition; [TStr message]]
         ++ rest)
      = match expand fuel tbl rest with
        | Some out =>
            Some (deprecated_macro_expr name definition message ++ out)
        | None => None
        end /\
    Deps.parenthesised (deprecated_macro_expr name definition message) = true.
Proof.
  intros tc tbl name definition message rest fuel H Hn Hs Hm.
  pose proof (accepted_core _ _ H) as Hc.
  split; [now apply expand_deprecated_macro|].
  unfold deprecated_macro_expr, deprecated_attribute.
  cbn [subst assoc m_body GEM5_DEPRECATED function_like String.eqb Ascii.eqb
       Bool.eqb app lp rp lb rb lc rc semi comma].
  unfold Deps.parenthesised.
  replace (is_punct "(" (TP "(")) with true by reflexivity. cbn [andb].
  match goal with
  | |- context [collect 0 ?l] =>
      replace l with
        (join_args
           [[TP "["; TP "]"; TP "("; TP ")"; TP "{"; TP "["; TP "[";
             TId "gnu"; TP "::"; TId "deprecated"; TP "("; TStr message;
             TP ")"; TP "]"; TP "]"; TId "int"; TId name; TP "{"; TP "}";
             TP ";"; TId "return"; TId name; TP ";"; TP "}"];
            TP "(" :: definition ++ [TP ")"]]
           ++ rp :: [])
        by (cbn [join_args app comma rp]; now rewrite <- app_assoc)
  end.
  rewrite collect_join; [reflexivity|].
  cbn [forallb]. rewrite andb_true_r. apply andb_true_iff. split.
  - reflexivity.
  - unfold simple_arg in *. cbn [arg_depth].
    replace (is_punct ")" (TP "(")) with false by reflexivity.
    replace (is_punct "," (TP "(")) with false by reflexivity.
    replace (is_punct "(" (TP "(")) with true by reflexivity.
    cbn [andb].
    destruct (arg_depth 0 definition) as [[|d]|] eqn:Hd; try discriminate.
    assert (forall a d0 d1 r,
               arg_depth d0 a = Some d1 ->
               arg_depth (S d0) (a ++ r) = arg_depth (S d1) r) as Happ.
    { induction a as [|t a IH]; intros d0 d1 r Ha; cbn [app arg_depth] in *.
      - now inversion Ha.
      - destruct (is_punct ")" t).
        + destruct d0 as [|d0]; [discriminate|]. now apply IH.
        + destruct (is_punct "," t && Nat.eqb d0 0) eqn:Hcomma;
            [discriminate|].
          replace (is_punct "," t && Nat.eqb (S d0) 0) with false
            by (cbn; now rewrite andb_false_r).
          destruct (is_punct "(" t); now apply IH. }
    rewrite (Happ _ _ _ [TP ")"] Hd). reflexivity.
Qed.

Lemma deprecated_macro_is_one_group_witness :
  preprocess gcc9_cxx17 = Ok (table_of gcc9_cxx17) /\
  lookup "OLD" (table_of gcc9_cxx17) = None /\
  simple_arg [TId "a"; TP "+"; TId "b"] = true /\
  expand 2 (table_of gcc9_cxx17)
    (call "GEM5_DEPRECATED_MACRO"
       [[TId "OLD"]; [TId "a"; TP "+"; TId "b"]; [TStr "use NEW"]]
       ++ [TP "*"; TNum 2])
  = Some [TP "("; TP "["; TP "]"; TP "("; TP ")"; TP "{";
          TP "["; TP "["; TId "gnu"; TP "::"; TId "deprecated"; TP "(";
          TStr "use NEW"; TP ")"; TP "]"; TP "]";
          TId "int"; TId "OLD"; TP "{"; TP "}"; TP ";";
          TId "return"; TId "OLD"; TP ";"; TP "}"; TP ",";
          TP "("; TId "a"; TP "+"; TId "b"; TP ")"; TP ")";
          TP "*"; TNum 2] /\
  Deps.parenthesised
    (deprecated_macro_expr "OLD" [TId "a"; TP "+"; TId "b"] "use NEW") = true.
Proof.
  split; [reflexivity|]. split; [reflexivity|]. split; [reflexivity|].
  exact (deprecated_macro_is_one_group gcc9_cxx17 _ "OLD"
           [TId "a"; TP "+"; TId "b"] "use NEW" [TP "*"; TNum 2] 0
           eq_refl eq_refl eq_refl eq_refl).
Defined.

Lemma macro_free_join (tbl : table) (args : list tokens) :
  forallb (macro_free tbl) args = true ->
  macro_free tbl (join_args args) = true.
Proof.
  induction args as [|a args IH]; intros H; [reflexivity|].
  cbn [forallb] in H. apply andb_true_iff in H as [Ha Hargs].
  destruct args as [|b args]; [exact Ha|].
  change (join_args (a :: b :: args))
    with (a ++ comma :: join_args (b :: args)).
  rewrite macro_free_app, macro_free_cons, Ha, (IH Hargs). reflexivity.
Qed.

Lemma lookup_for_each (ft nd mu enum_ok cl : bool) :
  lookup "GEM5_VAR_USED" (gnu_table ft nd mu enum_ok cl)
  = Some (object_like (Deps.var_used_attribute mu)) /\
  lookup "M5_FOR_EACH_IN_PACK" (gnu_table ft nd mu enum_ok cl)
  = Some (variadic []
            [TId "GEM5_FOR_EACH_IN_PACK"; lp; TId "__VA_ARGS__"; rp]).
Proof. destruct ft, nd, mu, enum_ok, cl; split; reflexivity. Qed.

(** [GEM5_FOR_EACH_IN_PACK(a1, ..., ak)] hands all its arguments, commas
    included, to the one pattern [((void)(a1, ..., ak), 0)...], so that
    several arguments form one group per pack element (lines 141-142); the
    array is declared with the toolchain's [GEM5_VAR_USED] attribute.  The
    legacy name gives the same tokens. *)
Theorem for_each_groups_its_arguments :
  forall (tc : toolchain) (tbl : table) (args : list tokens),
    preprocess tc = Ok tbl ->
    args <> [] ->
    forallb simple_arg args = true ->
    forallb (macro_free tbl) args = true ->
    expand 2 tbl (call "GEM5_FOR_EACH_IN_PACK" args)
      = Some (Deps.for_each_tokens
                (Deps.var_used_attribute (supports tc "maybe_unused"))
                (join_args args)) /\
    expand 3 tbl (call "M5_FOR_EACH_IN_PACK" args)
      = Some (Deps.for_each_tokens
                (Deps.var_used_attribute (supports tc "maybe_unused"))
                (join_args args)).
Proof.
  intros tc tbl args H Hne Hs Hm.
  pose proof (accepted_core _ _ H) as Hc.
  pose proof (macro_free_join _ _ Hm) as Hj.
  apply accepted_gnu in H. destruct H as [v [_ Htbl]].
  destruct (lookup_for_each (supports tc "fallthrough")
              (supports tc "nodiscard") (supports tc "maybe_unused")
              (6 <=? v) (clang tc)) as [Hv Ha].
  rewrite <- Htbl in Hv, Ha.
  assert (lookup "GEM5_FOR_EACH_IN_PACK" tbl = Some GEM5_FOR_EACH_IN_PACK)
    as Hl.
  { apply (core_lookup _ _ _ Hc). cbn. tauto. }
  assert (expand 2 tbl (call "GEM5_FOR_EACH_IN_PACK" args)
          = Some (Deps.for_each_tokens
                    (Deps.var_used_attribute (supports tc "maybe_unused"))
                    (join_args args))) as H2.
  { rewrite <- (app_nil_r (call _ _)).
    rewrite (expand_call 1 tbl _ _ [] args
               [("__VA_ARGS__", join_args args)] [] Hl);
      try reflexivity; try assumption.
    - cbn [subst assoc m_body GEM5_FOR_EACH_IN_PACK variadic String.eqb
           Ascii.eqb Bool.eqb app lp rp lb rb lc rc semi comma].
      rewrite <- app_assoc. cbn [app].
      scan_plain Hc.
      rewrite expand_unfold, Hv. cbn [m_params object_like m_body].
      assert (macro_free tbl
                (Deps.var_used_attribute (supports tc "maybe_unused")) = true)
        as Hattr.
      { destruct (supports tc "maybe_unused");
          cbn [Deps.var_used_attribute lb rb]; plain_tokens Hc. }
      scan_plain Hc.
      cbn [keep]. unfold Deps.for_each_tokens.
      cbn [app lp rp lb rb lc rc semi comma].
      reflexivity.
    - destruct args; [contradiction|reflexivity]. }
  split; [exact H2|].
  unfold call.
  rewrite (alias_variadic_step _ "M5_FOR_EACH_IN_PACK"
             "GEM5_FOR_EACH_IN_PACK" _ GEM5_FOR_EACH_IN_PACK Ha eq_refl Hl
             eq_refl eq_refl).
  exact H2.
Qed.

Lemma for_each_groups_its_arguments_witness :
  preprocess gcc5_cxx14 = Ok (table_of gcc5_cxx14) /\
  forallb simple_arg [[TId "f"; lp; TId "a"; rp]; [TId "g"; lp; TId "a"; rp]]
  = true /\
  expand 2 (table_of gcc5_cxx14)
    (call "GEM5_FOR_EACH_IN_PACK"
       [[TId "f"; lp; TId "a"; rp]; [TId "g"; lp; TId "a"; rp]])
  = Some [TId "do"; TP "{"; TP "["; TP "["; TId "gnu"; TP "::"; TId "unused";
          TP "]"; TP "]"; TId "int"; TId "i"; TP "["; TP "]"; TP "=";
          TP "{"; TNum 0; TP ","; TP "("; TP "("; TId "void"; TP ")";
          TP "("; TId "f"; TP "("; TId "a"; TP ")"; TP ",";
          TId "g"; TP "("; TId "a"; TP ")"; TP ")"; TP ",";
          TNum 0; TP ")"; TP "..."; TP "}"; TP ";"; TP "}";
          TId "while"; TP "("; TNum 0; TP ")"].
Proof.
  split; [reflexivity|]. split; [reflexivity|].
  refine (proj1 (for_each_groups_its_arguments gcc5_cxx14 _
                   [[TId "f"; lp; TId "a"; rp]; [TId "g"; lp; TId "a"; rp]]
                   eq_refl _ eq_refl eq_refl)).
  discriminate.
Defined.

(* ================================================================= *)
(** ** The expression and statement macros at run time *)

Section RuntimeComposition.

Context {state : Type}.

Lemma hint_is_truth_value (cond : Sem.expr state) (hint : Z) (s : state) :
  Sem.builtin_expect (Sem.lnot (Sem.lnot (Sem.paren cond))) (Sem.lit hint) s
  = Sem.truth_value cond s.
Proof.
  unfold Sem.builtin_expect, Sem.paren. unfold Sem.bind at 1.
  rewrite lnot_lnot. unfold Sem.truth_value, Sem.bind.
  destruct (cond s) as [[[z| |body] s1]|]; reflexivity.
Qed.

Lemma truth_value_idempotent (cond : Sem.expr state) (s : state) :
  Sem.truth_value (Sem.truth_value cond) s = Sem.truth_value cond s.
Proof.
  unfold Sem.truth_value, Sem.bind.
  destruct (cond s) as [[[z| |body] s1]|]; try reflexivity.
  cbn. now destruct (z =? 0).
Qed.

Lemma truth_value_ext (c1 c2 : Sem.expr state) (s : state) :
  c1 s = c2 s -> Sem.truth_value c1 s = Sem.truth_value c2 s.
Proof. unfold Sem.truth_value, Sem.bind. now intros ->. Qed.

Lemma deprecated_macro_stmt_once (user_comma : Sem.comma_operators state)
    (fuel : nat) (name message : string) (body : Sem.stmt state) (st : state) :
  Sem.GEM5_DEPRECATED_MACRO_STMT user_comma (S fuel) name body message st
  = Sem.once body st.
Proof.
  unfold Sem.GEM5_DEPRECATED_MACRO_STMT. rewrite do_while_zero.
  unfold Sem.once, Sem.block. cbn [fold_right].
  unfold Sem.seq, Sem.bind.
  destruct (body st) as [[[| | |r] st']|]; reflexivity.
Qed.

Lemma for_each_runs_in_order (user_comma : Sem.comma_operators state)
    (attr : tokens) (fuel : nat) (pack : list (Sem.expr state)) (s : state) :
  Sem.GEM5_FOR_EACH_IN_PACK user_comma attr (S fuel) pack s =
  match Sem.in_order pack s with
  | Some (_, s') => Some (Sem.ONormal, s')
  | None => None
  end.
Proof.
  unfold Sem.GEM5_FOR_EACH_IN_PACK. rewrite do_while_zero.
  unfold Sem.once, Sem.block, Sem.decl. cbn [fold_right].
  unfold Sem.seq, Sem.bind. rewrite init_list_pack.
  now destruct (Sem.in_order pack s) as [[u s']|].
Qed.

Lemma in_order_app (p q : list (Sem.expr state)) (s : state) :
  Sem.in_order (p ++ q) s =
  match Sem.in_order p s with
  | Some (_, s') => Sem.in_order q s'
  | None => None
  end.
Proof.
  revert s. induction p as [|e p IH]; intros s; [reflexivity|].
  cbn [app Sem.in_order]. unfold Sem.bind.
  destruct (e s) as [[v s1]|]; [apply IH|reflexivity].
Qed.

Lemma block_tail (tail : Sem.stmt state) (st : state) :
  Sem.block [tail] st = tail st.
Proof.
  unfold Sem.block. cbn [fold_right]. unfold Sem.seq, Sem.bind, Sem.skip.
  destruct (tail st) as [[[| | |v] st']|]; reflexivity.
Qed.

End RuntimeComposition.

(** The two hints are interchangeable and harmless to nest: swapping
    [GEM5_LIKELY] for [GEM5_UNLIKELY], or wrapping a hint in another one,
    changes neither the value nor the effects. *)
Theorem branch_hints_are_interchangeable :
  forall (state : Type) (cond : Sem.expr state) (s : state),
    Sem.GEM5_LIKELY cond s = Sem.GEM5_UNLIKELY cond s /\
    Sem.GEM5_LIKELY (Sem.GEM5_LIKELY cond) s = Sem.GEM5_LIKELY cond s /\
    Sem.GEM5_UNLIKELY (Sem.GEM5_LIKELY cond) s = Sem.GEM5_LIKELY cond s /\
    Sem.GEM5_LIKELY (Sem.GEM5_UNLIKELY cond) s = Sem.GEM5_LIKELY cond s /\
    Sem.GEM5_UNLIKELY (Sem.GEM5_UNLIKELY cond) s = Sem.GEM5_LIKELY cond s.
Proof.
  intros state cond s.
  assert (forall (c : Sem.expr state) k s0,
             Sem.builtin_expect (Sem.lnot (Sem.lnot (Sem.paren c)))
               (Sem.lit k) s0 = Sem.truth_value c s0) as H
      by (intros; apply hint_is_truth_value).
  assert (forall k,
             Sem.truth_value
               (Sem.builtin_expect (Sem.lnot (Sem.lnot (Sem.paren cond)))
                  (Sem.lit k)) s
             = Sem.truth_value cond s) as Hn.
  { intros k.
    rewrite (truth_value_ext _ (@Sem.truth_value state cond) s (H cond k s)).
    apply truth_value_idempotent. }
  unfold Sem.GEM5_LIKELY, Sem.GEM5_UNLIKELY.
  repeat split; rewrite ?H, ?Hn; reflexivity.
Qed.


(** A [break] or [continue] handed to [GEM5_DEPRECATED_MACRO_STMT] ends
    the wrapper's own [do ... while (0)] and nothing else: the wrapper
    never ends in a break or continue, and the statements after it run,
    where after the bare [break] they would not.  A [return] passes
    through. *)
Theorem deprecated_macro_stmt_captures_jumps :
  forall (state : Type) (user_comma : Sem.comma_operators state)
         (fuel : nat) (name message : string)
         (body tail : Sem.stmt state) (e : Sem.expr state) (st : state),
    (forall o st',
        Sem.GEM5_DEPRECATED_MACRO_STMT user_comma (S fuel) name body message st
        = Some (o, st') ->
        o <> Sem.OBreak /\ o <> Sem.OContinue) /\
    Sem.block [Sem.GEM5_DEPRECATED_MACRO_STMT user_comma (S fuel) name
                 Flow.sbreak message;
               tail] st = tail st /\
    Sem.block [Flow.sbreak; tail] st = Some (Sem.OBreak, st) /\
    Sem.block [Sem.GEM5_DEPRECATED_MACRO_STMT user_comma (S fuel) name
                 Flow.scontinue message; tail] st = tail st /\
    Sem.block [Flow.scontinue; tail] st = Some (Sem.OContinue, st) /\
    Sem.block [Sem.GEM5_DEPRECATED_MACRO_STMT user_comma (S fuel) name
                 (Sem.sreturn e) message; tail] st = Sem.sreturn e st.
Proof.
  intros state user_comma fuel name message body tail e st.
  split.
  { intros o st'. rewrite deprecated_macro_stmt_once.
    unfold Sem.once, Sem.bind.
    destruct (body st) as [[[| | |v] st1]|]; intros H; inversion H;
      split; discriminate. }
  assert (forall s0 : Sem.stmt state,
             Sem.block [s0; tail] st
             = match s0 st with
               | Some (Sem.ONormal, st1) => tail st1
               | Some (o, st1) => Some (o, st1)
               | None => None
               end) as Hb.
  { intros s0. change (Sem.block [s0; tail]) with
      (Sem.seq s0 (Sem.block [tail])).
    unfold Sem.seq at 1. unfold Sem.bind at 1.
    destruct (s0 st) as [[[| | |v] st1]|]; try reflexivity.
    apply block_tail. }
  rewrite !Hb, !deprecated_macro_stmt_once.
  unfold Sem.once, Sem.bind, Flow.sbreak, Flow.scontinue, Sem.sreturn,
    Sem.ret.
  repeat split; try reflexivity.
  unfold Sem.bind. now destruct (e st) as [[v st1]|].
Qed.

(** [GEM5_FOR_EACH_IN_PACK] over a pack that is split in two is the two
    evaluations one after the other, and the statement always ends
    normally: it never breaks, continues or returns. *)
Theorem for_each_in_pack_composes :
  forall (state : Type) (user_comma : Sem.comma_operators state)
         (attr : tokens) (f1 f2 f3 : nat)
         (p q : list (Sem.expr state)) (s : state),
    Sem.block [Sem.GEM5_FOR_EACH_IN_PACK user_comma attr (S f1) p;
               Sem.GEM5_FOR_EACH_IN_PACK user_comma attr (S f2) q] s
    = Sem.GEM5_FOR_EACH_IN_PACK user_comma attr (S f3) (p ++ q) s /\
    (forall o s',
        Sem.GEM5_FOR_EACH_IN_PACK user_comma attr (S f1) p s = Some (o, s') ->
        o = Sem.ONormal).
Proof.
  intros state user_comma attr f1 f2 f3 p q s. split.
  - change (Sem.block [Sem.GEM5_FOR_EACH_IN_PACK user_comma attr (S f1) p;
                       Sem.GEM5_FOR_EACH_IN_PACK user_comma attr (S f2) q])
      with (Sem.seq (Sem.GEM5_FOR_EACH_IN_PACK user_comma attr (S f1) p)
              (Sem.block [Sem.GEM5_FOR_EACH_IN_PACK user_comma attr (S f2) q])).
    unfold Sem.seq at 1. unfold Sem.bind at 1.
    rewrite !for_each_runs_in_order, in_order_app.
    destruct (Sem.in_order p s) as [[u s1]|]; [|reflexivity].
    rewrite block_tail. apply for_each_runs_in_order.
  - intros o s'. rewrite for_each_runs_in_order.
    destruct (Sem.in_order p s) as [[u s1]|]; intros H; now inversion H.
Qed.
